(** * streamprintf: a shallow embedding of [Printf<CharT>] (streamprintf.h)

    The development models the checked build of the header (NDEBUG not
    defined, so every [assert]/[assertmsg] is live and [PRINTF_TYPE(n)] is
    [n]) on the platform the header is written for (MSVC: [__int64],
    [_assert], [alloca]; [sizeof(int) = sizeof(long) = 4]).

    - A format string is the list of its characters; the array in memory is
      that list followed by the terminating NUL.  Reading beyond the
      terminator, storing beyond [format[29]], overflowing an [int] and
      fetching a variadic argument at the wrong type are undefined in C++:
      the model stops there with a failure of its own, so that no theorem
      below silently relies on such a step.
    - Characters are 8-bit ([ascii]) for both instantiations of [CharT]; the
      instantiation only enters through [sizeof(CharT) == sizeof(char)].
    - The platform routine behind [my_vsprintf] and the values it renders are
      opaque: [my_vsprintf] is a section variable. *)

From Stdlib Require Import ZArith Ascii String Bool Lia List.
Import ListNotations.

Set Implicit Arguments.

(** ** Characters and C library predicates *)

Definition NUL : ascii := "000"%char.

Definition chars (s : string) : list ascii := list_ascii_of_string s.

(** [strchr(s, c) != NULL].  The terminating NUL of [s] belongs to the
    searched string, so [strchr(s, '\0')] is never NULL. *)
Definition strchr (s : string) (c : ascii) : bool :=
  existsb (Ascii.eqb c) (chars s ++ [NUL]).

(** [isdigit(c)] in the "C" locale. *)
Definition isdigit (c : ascii) : bool :=
  (48 <=? nat_of_ascii c)%nat && (nat_of_ascii c <=? 57)%nat.

(** ** Outcomes *)

(** The five [assertmsg] messages of the header, the plain [assert]s, and
    the undefined steps listed above. *)
Inductive failure : Type :=
| Too_few_arguments
| Too_many_arguments
| Invalid_format_specification
| Format_specification_is_too_long
| Type_mismatch
| Assertion_failed
| ReadPastTerminator
| StoreOutOfBounds (i : nat)
| IntOverflow
| BadVaArg.

Inductive result (A : Type) : Type :=
| Ok (a : A)
| Err (f : failure).

Arguments Err {A} f.

Definition bind {A B : Type} (r : result A) (k : A -> result B) : result B :=
  match r with
  | Ok a => k a
  | Err f => Err f
  end.

Notation "x <- e ;; k" := (bind e (fun x => k))
  (at level 61, e at next level, right associativity).
Notation "' p <- e ;; k" := (bind e (fun x => match x with p => k end))
  (at level 61, p pattern, e at next level, right associativity).

(** [assertmsg(exp, msg)] *)
Definition assertmsg (exp : bool) (msg : failure) : result unit :=
  if exp then Ok tt else Err msg.

(** The error kinds of the specification, and the kind each assertion
    message stands for.  Undefined steps have no kind. *)
Inductive ErrorKind : Type :=
| MalformedFormat
| TypeMismatch
| ArgumentCountMismatch_too_few
| ArgumentCountMismatch_too_many.

Definition error_kind (f : failure) : option ErrorKind :=
  match f with
  | Too_few_arguments => Some ArgumentCountMismatch_too_few
  | Too_many_arguments => Some ArgumentCountMismatch_too_many
  | Invalid_format_specification => Some MalformedFormat
  | Format_specification_is_too_long => Some MalformedFormat
  | Type_mismatch => Some TypeMismatch
  | _ => None
  end.

(** ** The Type Tag: [enum Size], [enum Type] *)

Module Size.
Definition None : Z := 1.
Definition Short : Z := 2.
Definition Long : Z := 3.
Definition Int64 : Z := 4.
Definition sizeMask : Z := 0xFF.
End Size.

Module Ty.
Definition Int : Z := 0x100.
Definition Unsigned : Z := 0x200.
Definition Float : Z := 0x300.
Definition Char : Z := 0x400.
Definition String : Z := 0x500.
Definition WideString : Z := 0x600.
Definition Pointer : Z := 0x700.
Definition typeMask : Z := 0xFF00.
End Ty.

(** [PRINTF_TYPE(size | type)] in the checked build. *)
Definition PRINTF_TYPE (size type : Z) : Z := Z.lor size type.

(** ** Platform constants *)

Definition INT_MAX : Z := 2147483647.
Definition sizeof_int : Z := 4.
Definition sizeof_long : Z := 4.

Inductive char_type : Type := narrow_char | wide_char.

Definition sizeof_char_type (t : char_type) : Z :=
  match t with narrow_char => 1 | wide_char => 2 end.

(** An [int] result: signed overflow is undefined. *)
Definition int_result (z : Z) : result Z :=
  if ((- INT_MAX - 1 <=? z) && (z <=? INT_MAX))%Z then Ok z else Err IntOverflow.

(** ** Arguments *)

(** What travels through the [...] of [Do] after the default argument
    promotions.  Floating-point values are carried as opaque bit patterns;
    a string pointer is carried as the characters it points to. *)
Inductive va_value : Type :=
| va_int (n : Z)
| va_unsigned (n : Z)
| va_long (n : Z)
| va_unsigned_long (n : Z)
| va_int64 (n : Z)
| va_unsigned_int64 (n : Z)
| va_double (bits : Z)
| va_long_double (bits : Z)
| va_char_ptr (s : list ascii)
| va_wchar_ptr (w : list ascii)
| va_void_ptr (p : Z).

(** One constructor per overload of [operator<<]. *)
Inductive argument : Type :=
| arg_bool (n : bool)
| arg_short (n : Z)
| arg_int (n : Z)
| arg_long (n : Z)
| arg_int64 (n : Z)
| arg_unsigned_short (u : Z)
| arg_unsigned_int (u : Z)
| arg_unsigned_long (u : Z)
| arg_unsigned_int64 (u : Z)
| arg_float (bits : Z)
| arg_double (bits : Z)
| arg_long_double (bits : Z)
| arg_char (c : ascii)
| arg_unsigned_char (c : ascii)
| arg_const_char_ptr (s : list ascii)
| arg_const_unsigned_char_ptr (s : list ascii)
| arg_std_string (s : list ascii)
| arg_const_wchar_ptr (w : list ascii)
| arg_std_wstring (w : list ascii)
| arg_const_void_ptr (v : Z).

(** The first argument each overload hands to [Do]. *)
Definition tag_of (a : argument) : Z :=
  match a with
  | arg_bool _ => PRINTF_TYPE Size.None Ty.Int
  | arg_short _ => PRINTF_TYPE Size.Short Ty.Int
  | arg_int _ => PRINTF_TYPE Size.None Ty.Int
  | arg_long _ => PRINTF_TYPE Size.Long Ty.Int
  | arg_int64 _ => PRINTF_TYPE Size.Int64 Ty.Int
  | arg_unsigned_short _ => PRINTF_TYPE Size.Short Ty.Unsigned
  | arg_unsigned_int _ => PRINTF_TYPE Size.None Ty.Unsigned
  | arg_unsigned_long _ => PRINTF_TYPE Size.Long Ty.Unsigned
  | arg_unsigned_int64 _ => PRINTF_TYPE Size.Int64 Ty.Unsigned
  | arg_float _ => PRINTF_TYPE Size.None Ty.Float
  | arg_double _ => PRINTF_TYPE Size.None Ty.Float
  | arg_long_double _ => PRINTF_TYPE Size.Long Ty.Float
  | arg_char _ => PRINTF_TYPE Size.Short Ty.Char
  | arg_unsigned_char _ => PRINTF_TYPE Size.Short Ty.Char
  | arg_const_char_ptr _ => PRINTF_TYPE Size.Short Ty.String
  | arg_const_unsigned_char_ptr _ => PRINTF_TYPE Size.Short Ty.String
  | arg_std_string _ => PRINTF_TYPE Size.Short Ty.String
  | arg_const_wchar_ptr _ => PRINTF_TYPE Size.Long Ty.String
  | arg_std_wstring _ => PRINTF_TYPE Size.Long Ty.String
  | arg_const_void_ptr _ => PRINTF_TYPE Size.None Ty.Pointer
  end.

(** The value each overload hands to [Do] ([bool], [short], [char] and
    [unsigned short] promote to [int], [char] being signed; [float]
    promotes to [double]; a [std::string] is passed as its [c_str()]). *)
Definition value_of (a : argument) : va_value :=
  match a with
  | arg_bool n => va_int (if n then 1 else 0)
  | arg_short n => va_int n
  | arg_int n => va_int n
  | arg_long n => va_long n
  | arg_int64 n => va_int64 n
  | arg_unsigned_short u => va_int u
  | arg_unsigned_int u => va_unsigned u
  | arg_unsigned_long u => va_unsigned_long u
  | arg_unsigned_int64 u => va_unsigned_int64 u
  | arg_float bits => va_double bits
  | arg_double bits => va_double bits
  | arg_long_double bits => va_long_double bits
  | arg_char c => va_int (let n := Z.of_nat (nat_of_ascii c) in
                           if (128 <=? n)%Z then (n - 256)%Z else n)
  | arg_unsigned_char c => va_int (Z.of_nat (nat_of_ascii c))
  | arg_const_char_ptr s => va_char_ptr s
  | arg_const_unsigned_char_ptr s => va_char_ptr s
  | arg_std_string s => va_char_ptr s
  | arg_const_wchar_ptr w => va_wchar_ptr w
  | arg_std_wstring w => va_wchar_ptr w
  | arg_const_void_ptr v => va_void_ptr v
  end.

(** ** The object: [_fmt], [_pos], [_ostm] *)

Record Printf : Type := mkPrintf {
  _fmt : list ascii;
  _pos : nat;
  _ostm : list ascii
}.

(** The array [_fmt] points to, read from index [_pos] on. *)
Definition fmt_from (fmt : list ascii) (pos : nat) : list ascii :=
  skipn pos (fmt ++ [NUL]).

(** [_fmt[_pos]] *)
Definition peek (mem : list ascii) : result ascii :=
  match mem with
  | [] => Err ReadPastTerminator
  | c :: _ => Ok c
  end.

(** ** [Printf<CharT>::OutputStaticText] *)

(** The [while] loop, run over the array from [_pos] on; it returns the new
    [_pos] and the stream.  [mem = c :: mem1] means [_fmt[_pos] = c], and
    the head of [mem1] is [_fmt[_pos+1]]. *)
Fixpoint OutputStaticText_loop (mem : list ascii) (pos : nat) (ostm : list ascii)
  : result (nat * list ascii) :=
  match mem with
  | [] => Err ReadPastTerminator
  | c :: mem1 =>
    if (c =? NUL)%char then Ok (pos, ostm)
    else if (c =? "%")%char then
      match mem1 with
      | [] => Err ReadPastTerminator
      | c1 :: mem2 =>
        if (c1 =? NUL)%char then Err Invalid_format_specification
        else if (c1 =? "%")%char
             then OutputStaticText_loop mem2 (S (S pos)) (ostm ++ chars "%")
             else Ok (pos, ostm)
      end
    else OutputStaticText_loop mem1 (S pos) (ostm ++ [c])
  end.

Definition OutputStaticText (p : Printf) : result Printf :=
  '(pos, ostm) <- OutputStaticText_loop (fmt_from (_fmt p) (_pos p)) (_pos p) (_ostm p) ;;
  Ok (mkPrintf (_fmt p) pos ostm).

(** ** [Printf<CharT>::Do]: parsing one directive (lines 185-255) *)

(** The locals of the parser: the array from [_pos] on, [_pos], and the
    scratch buffer [format[0..i)] with [i = length format]. *)
Record cursor : Type := mkCursor {
  mem : list ascii;
  pos : nat;
  format : list ascii
}.

(** [CharT format[30]] *)
Definition format_capacity : nat := 30.

(** [format[i++] = _fmt[_pos++]] *)
Definition copy (k : cursor) : result (ascii * cursor) :=
  match mem k with
  | [] => Err ReadPastTerminator
  | c :: mem' =>
    if (length (format k) <? format_capacity)%nat
    then Ok (c, mkCursor mem' (S (pos k)) (format k ++ [c]))
    else Err (StoreOutOfBounds (length (format k)))
  end.

(** [while (strchr("-+0 #", _fmt[_pos])) format[i++] = _fmt[_pos++];] *)
Fixpoint copy_flags (m : list ascii) (p : nat) (f : list ascii) : result cursor :=
  match m with
  | [] => Err ReadPastTerminator
  | c :: m' =>
    if strchr "-+0 #" c then
      if (length f <? format_capacity)%nat
      then copy_flags m' (S p) (f ++ [c])
      else Err (StoreOutOfBounds (length f))
    else Ok (mkCursor m p f)
  end.

(** [while (isdigit(_fmt[_pos])) { format[i++] = _fmt[_pos++];
       n = (n*10) + (format[i-1] - '0'); }] *)
Fixpoint copy_digits (m : list ascii) (p : nat) (f : list ascii) (n : Z)
  : result (cursor * Z) :=
  match m with
  | [] => Err ReadPastTerminator
  | c :: m' =>
    if isdigit c then
      if (length f <? format_capacity)%nat then
        match int_result (n * 10 + (Z.of_nat (nat_of_ascii c) - 48)) with
        | Ok n' => copy_digits m' (S p) (f ++ [c]) n'
        | Err e => Err e
        end
      else Err (StoreOutOfBounds (length f))
    else Ok (mkCursor m p f, n)
  end.

(** [_fmt[_pos] == 'I' && _fmt[_pos+1] == '6' && _fmt[_pos+2] == '4'] *)
Definition is_I64 (m : list ascii) : bool :=
  match m with
  | c0 :: c1 :: c2 :: _ => (c0 =? "I")%char && (c1 =? "6")%char && (c2 =? "4")%char
  | _ => false
  end.

(** What the parser hands to the rest of [Do]. *)
Record directive : Type := mkDirective {
  d_format : list ascii;   (* format[0..i), before the terminator is stored *)
  d_pos : nat;             (* _pos after the directive *)
  width : Z;
  precision : Z;
  sizeChar : ascii;
  fmtChar : ascii
}.

(** A stand-in for the platform routine, used where a statement is
    evaluated on a concrete call: it shows the directive it was handed. *)
Definition echo_vsprintf (w : Z) (f : list ascii) (v : va_value) : list ascii :=
  chars "<" ++ f ++ chars ">".

(** ** The directive grammar

    [directive := '%' flags* width? ('.' precision?)? size? conv], kept as
    its parts.  A leading [0] of the digits after the flags is itself a
    flag for the parser, so [width_digits] does not start with one. *)

Inductive size_marker : Type :=
| no_marker | marker_h | marker_l | marker_L | marker_I64.

Definition marker_text (m : size_marker) : list ascii :=
  match m with
  | no_marker => []
  | marker_h => chars "h"
  | marker_l => chars "l"
  | marker_L => chars "L"
  | marker_I64 => chars "I64"
  end.

(** The value of [sizeChar] after the size step of the parser. *)
Definition marker_sizeChar (m : size_marker) : ascii :=
  match m with
  | no_marker => NUL
  | marker_h => "h"
  | marker_l => "l"
  | marker_L => "l"
  | marker_I64 => "I"
  end%char.

Record directive_text : Type := mkText {
  flags : list ascii;
  width_digits : list ascii;
  precision_digits : option (list ascii);
  marker : size_marker;
  conv : ascii
}.

Definition precision_text (p : option (list ascii)) : list ascii :=
  match p with
  | None => []
  | Some ds => "."%char :: ds
  end.

Definition text_of (t : directive_text) : list ascii :=
  "%"%char :: flags t ++ width_digits t ++ precision_text (precision_digits t)
           ++ marker_text (marker t) ++ [conv t].

Definition digit_step (n : Z) (c : ascii) : Z :=
  (n * 10 + (Z.of_nat (nat_of_ascii c) - 48))%Z.

Definition digits_value (ds : list ascii) : Z := fold_left digit_step ds 0%Z.

Definition is_flag (c : ascii) : bool := existsb (Ascii.eqb c) (chars "-+0 #").

Definition is_conv (c : ascii) : bool :=
  existsb (Ascii.eqb c) (chars "diouxXeEfgGcspCS").

Definition no_leading_zero (ds : list ascii) : bool :=
  match ds with
  | c :: _ => negb (c =? "0")%char
  | [] => true
  end.

Definition precision_value (p : option (list ascii)) : Z :=
  match p with
  | None => 0%Z
  | Some ds => digits_value ds
  end.

(** A directive of the grammar that fits the scratch buffer and whose
    numbers fit an [int]. *)
Definition well_formed (t : directive_text) : bool :=
  forallb is_flag (flags t)
  && forallb isdigit (width_digits t) && no_leading_zero (width_digits t)
  && forallb isdigit (match precision_digits t with Some ds => ds | None => [] end)
  && is_conv (conv t)
  && (length (text_of t) <? format_capacity)%nat
  && (digits_value (width_digits t) <=? INT_MAX)%Z
  && (precision_value (precision_digits t) <=? INT_MAX)%Z.

(** A format string cut into literal characters, [%%] escapes and
    directives. *)
Inductive segment : Type :=
| Lit (c : ascii)
| Percent
| Directive (t : directive_text).

Definition segment_text (s : segment) : list ascii :=
  match s with
  | Lit c => [c]
  | Percent => chars "%%"
  | Directive t => text_of t
  end.

Definition format_of (segs : list segment) : list ascii :=
  flat_map segment_text segs.

Definition wf_segment (s : segment) : bool :=
  match s with
  | Lit c => negb (c =? NUL)%char && negb (c =? "%")%char
  | Percent => true
  | Directive t => well_formed t
  end.

Fixpoint directives (segs : list segment) : list directive_text :=
  match segs with
  | [] => []
  | Directive t :: segs' => t :: directives segs'
  | _ :: segs' => directives segs'
  end.

(** The array from the cursor on starts with a character outside [P]: a
    loop [while (P(_fmt[_pos]))] stops here. *)
Definition stops (P : ascii -> bool) (m : list ascii) : bool :=
  match m with
  | c :: _ => negb (P c)
  | [] => false
  end.

Definition is_Ok {A : Type} (r : result A) : bool :=
  match r with Ok _ => true | Err _ => false end.

(** The two axes of an argument's Type Tag, as [Do] decodes them. *)
Definition size_of (a : argument) : Z := Z.land (tag_of a) Size.sizeMask.
Definition type_of (a : argument) : Z := Z.land (tag_of a) Ty.typeMask.

(** A few directives and a format string to evaluate statements on. *)
Definition dir_d : directive_text := mkText [] [] None no_marker "d".
Definition dir_5s : directive_text := mkText [] (chars "5") None no_marker "s".
Definition dir_p : directive_text := mkText [] [] None no_marker "p".
Definition dir_S : directive_text := mkText [] [] None no_marker "S".
Definition dir_hS : directive_text := mkText [] [] None marker_h "S".

(** ["n=%d%% %5s"] *)
Definition sample_segments : list segment :=
  [Lit "n"; Lit "="; Directive dir_d; Percent; Lit " "; Directive dir_5s].

Definition sample_arguments : list argument :=
  [arg_int 42; arg_std_string (chars "hello!")].

(** [k'] is [k] after some characters were copied: they left the array at
    the cursor and were appended to [format], and [_pos] moved over them. *)
Definition advances (k k' : cursor) : Prop :=
  exists cs, mem k = cs ++ mem k'
             /\ pos k' = pos k + length cs
             /\ format k' = format k ++ cs.

(** The same object behind a stream that already holds [o]. *)
Definition prepend (o : list ascii) (p : Printf) : Printf :=
  mkPrintf (_fmt p) (_pos p) (o ++ _ostm p).

(** A directive with its conversion character cut off. *)
Definition unfinished (t : directive_text) : list ascii :=
  "%"%char :: flags t ++ width_digits t ++ precision_text (precision_digits t)
           ++ marker_text (marker t).

Section Printf.

(** The two build options, the instantiation, and the platform routine
    ([vsprintf] / [vswprintf], given the buffer size, the one-directive
    format and the argument). *)
Variable STREAMPRINTF_STRICT_SIGN : bool.
Variable STREAMPRINTF_STRICT_INTSIZE : bool.
Variable CharT : char_type.
Variable my_vsprintf : Z -> list ascii -> va_value -> list ascii.

(** [sizeof(CharT) == sizeof(char)] *)
Definition CharT_is_char : bool :=
  (sizeof_char_type CharT =? sizeof_char_type narrow_char)%Z.

(** The [switch (type)] that opens [Do]. *)
Definition legalPrintfTypeChars (type : Z) : result string :=
  if (type =? Ty.Int)%Z then
    Ok (if STREAMPRINTF_STRICT_SIGN then "dioxX" else "diuoxX")%string
  else if (type =? Ty.Unsigned)%Z then
    Ok (if STREAMPRINTF_STRICT_SIGN then "uoxX" else "diuoxX")%string
  else if (type =? Ty.Float)%Z then Ok "eEfgG"%string
  else if (type =? Ty.Char)%Z then Ok "c"%string
  else if (type =? Ty.String)%Z then Ok "sp"%string
  else if (type =? Ty.Pointer)%Z then Ok "p"%string
  else Err Assertion_failed.

(** Lines 234-247: the size-class of a directive without a marker. *)
Definition resolve_sizeChar (sizeChar fmtChar : ascii) : ascii :=
  if (sizeChar =? NUL)%char then
    if (fmtChar =? "c")%char || (fmtChar =? "s")%char then
      (if CharT_is_char then "h" else "l")%char
    else if (fmtChar =? "C")%char || (fmtChar =? "S")%char then
      (if CharT_is_char then "l" else "h")%char
    else sizeChar
  else sizeChar.

(** Lines 249-252. *)
Definition rewrite_fmtChar (fmtChar : ascii) : ascii :=
  if (fmtChar =? "C")%char then "c"%char
  else if (fmtChar =? "S")%char then "s"%char
  else fmtChar.

Definition parse_directive (p : Printf) : result directive :=
  let k0 := mkCursor (fmt_from (_fmt p) (_pos p)) (_pos p) [] in
  '(c0, k1) <- copy k0 ;;
  _ <- assertmsg (c0 =? "%")%char Too_many_arguments ;;
  (* flags *)
  k2 <- copy_flags (mem k1) (pos k1) (format k1) ;;
  (* width *)
  c <- peek (mem k2) ;;
  '(k3, width) <- (if isdigit c
                   then copy_digits (mem k2) (pos k2) (format k2) 0
                   else Ok (k2, 0%Z)) ;;
  (* precision *)
  c <- peek (mem k3) ;;
  '(k4, precision) <- (if (c =? ".")%char
                       then '(_, k) <- copy k3 ;;
                            copy_digits (mem k) (pos k) (format k) 0
                       else Ok (k3, 0%Z)) ;;
  (* size *)
  c <- peek (mem k4) ;;
  '(k5, sizeChar) <- (if strchr "hlL" c then
                        '(sc, k) <- copy k4 ;;
                        Ok (k, if (sc =? "L")%char then "l"%char else sc)
                      else if is_I64 (mem k4) then
                        '(sc, k) <- copy k4 ;;
                        '(_, k) <- copy k ;;
                        '(_, k) <- copy k ;;
                        Ok (k, sc)
                      else Ok (k4, NUL)) ;;
  c <- peek (mem k5) ;;
  _ <- assertmsg (negb (c =? NUL)%char) Invalid_format_specification ;;
  '(fmtChar, k6) <- copy k5 ;;
  let sizeChar := resolve_sizeChar sizeChar fmtChar in
  let fmtChar := rewrite_fmtChar fmtChar in
  _ <- assertmsg (length (format k6) <? format_capacity)%nat
                 Format_specification_is_too_long ;;
  (* format[i] = '\0' *)
  Ok (mkDirective (format k6) (pos k6) width precision sizeChar fmtChar).

(** Lines 213-255 on their own: what [parse_directive] does from the size
    marker on, given the cursor and the numbers it has reached. *)
Definition parse_size_and_conversion (k4 : cursor) (width precision : Z)
  : result directive :=
  c <- peek (mem k4) ;;
  '(k5, sizeChar) <- (if strchr "hlL" c then
                        '(sc, k) <- copy k4 ;;
                        Ok (k, if (sc =? "L")%char then "l"%char else sc)
                      else if is_I64 (mem k4) then
                        '(sc, k) <- copy k4 ;;
                        '(_, k) <- copy k ;;
                        '(_, k) <- copy k ;;
                        Ok (k, sc)
                      else Ok (k4, NUL)) ;;
  c <- peek (mem k5) ;;
  _ <- assertmsg (negb (c =? NUL)%char) Invalid_format_specification ;;
  '(fmtChar, k6) <- copy k5 ;;
  let sizeChar := resolve_sizeChar sizeChar fmtChar in
  let fmtChar := rewrite_fmtChar fmtChar in
  _ <- assertmsg (length (format k6) <? format_capacity)%nat
                 Format_specification_is_too_long ;;
  Ok (mkDirective (format k6) (pos k6) width precision sizeChar fmtChar).

(** ** [Do]: the type check (lines 257-303) *)

(** The [switch (size)] of the general branch. *)
Definition size_switch (size : Z) (sizeChar : ascii) : result unit :=
  if STREAMPRINTF_STRICT_INTSIZE then
    if (size =? Size.None)%Z then assertmsg (sizeChar =? NUL)%char Type_mismatch
    else if (size =? Size.Long)%Z then assertmsg (sizeChar =? "l")%char Type_mismatch
    else if (size =? Size.Short)%Z then assertmsg (sizeChar =? "h")%char Type_mismatch
    else if (size =? Size.Int64)%Z then assertmsg (sizeChar =? "I")%char Type_mismatch
    else Ok tt
  else
    if (size =? Size.None)%Z || (size =? Size.Long)%Z then
      _ <- assertmsg (sizeof_int =? sizeof_long)%Z Assertion_failed ;;
      assertmsg ((sizeChar =? NUL)%char || (sizeChar =? "l")%char) Type_mismatch
    else if (size =? Size.Short)%Z then assertmsg (sizeChar =? "h")%char Type_mismatch
    else if (size =? Size.Int64)%Z then assertmsg (sizeChar =? "I")%char Type_mismatch
    else Ok tt.

Definition type_check (size type : Z) (legal : string) (sizeChar fmtChar : ascii)
  : result unit :=
  _ <- (if (type =? Ty.String)%Z && (fmtChar =? "p")%char then
          assertmsg (sizeChar =? NUL)%char Invalid_format_specification
        else if (type =? Ty.Unsigned)%Z && (size =? Size.Short)%Z then
          if (fmtChar =? "c")%char
          then assertmsg (sizeChar =? "l")%char Type_mismatch
          else assertmsg (sizeChar =? "h")%char Type_mismatch
        else size_switch size sizeChar) ;;
  if (type =? Ty.Unsigned)%Z && (size =? Size.Short)%Z
  then assertmsg ((fmtChar =? "c")%char || strchr legal fmtChar) Type_mismatch
  else assertmsg (strchr legal fmtChar) Type_mismatch.

(** ** [Do]: the size of the result buffer (lines 305-332) *)

(** [len = strlen(staticStr)], the argument fetched as a narrow string
    pointer; [len] is an [int]. *)
Definition va_strlen (v : va_value) : result Z :=
  match v with
  | va_char_ptr s => int_result (Z.of_nat (length s))
  | _ => Err BadVaArg
  end.

(** [len = wcslen(staticStr)], the argument fetched as a wide string
    pointer. *)
Definition va_wcslen (v : va_value) : result Z :=
  match v with
  | va_wchar_ptr w => int_result (Z.of_nat (length w))
  | _ => Err BadVaArg
  end.

(** The value of [width] handed to [alloca] and [my_vsprintf]. *)
Definition result_width (d : directive) (v : va_value) : result Z :=
  width <- (if (fmtChar d =? "s")%char then
              len <- (if (sizeChar d =? "h")%char then va_strlen v
                      else _ <- assertmsg (sizeChar d =? "l")%char Assertion_failed ;;
                           va_wcslen v) ;;
              Ok (if (len >? width d)%Z then len else width d)
            else Ok (width d)) ;;
  let width := if (precision d >? width)%Z then precision d else width in
  int_result (width + 30).

(** ** [Do] *)

Definition Do (sizeAndType : Z) (v : va_value) (p : Printf) : result Printf :=
  let size := Z.land sizeAndType Size.sizeMask in
  let type := Z.land sizeAndType Ty.typeMask in
  legal <- legalPrintfTypeChars type ;;
  d <- parse_directive p ;;
  _ <- type_check size type legal (sizeChar d) (fmtChar d) ;;
  width <- result_width d v ;;
  let result := my_vsprintf width (d_format d) v in
  OutputStaticText (mkPrintf (_fmt p) (d_pos d) (_ostm p ++ result)).

(** ** The public surface *)

(** [Printf(ostm, fmt)] *)
Definition Printf_ctor (ostm fmt : list ascii) : result Printf :=
  OutputStaticText (mkPrintf fmt 0 ostm).

(** [~Printf()] *)
Definition Printf_dtor (p : Printf) : result unit :=
  c <- peek (fmt_from (_fmt p) (_pos p)) ;;
  assertmsg (c =? NUL)%char Too_few_arguments.

(** [p << a] *)
Definition shl (p : Printf) (a : argument) : result Printf :=
  Do (tag_of a) (value_of a) p.

(** [p << a1 << a2 << ... << an] *)
Fixpoint feed (p : Printf) (args : list argument) : result Printf :=
  match args with
  | [] => Ok p
  | a :: args' => p' <- shl p a ;; feed p' args'
  end.

(** [oprintf(ostm, fmt, a1, ..., an)]: construct, feed, destroy.  The
    result is the stream afterwards.  (The header spells this out for
    zero to ten arguments.) *)
Definition oprintf (ostm fmt : list ascii) (args : list argument) : result (list ascii) :=
  p <- Printf_ctor ostm fmt ;;
  p <- feed p args ;;
  _ <- Printf_dtor p ;;
  Ok (_ostm p).

(** [strprintfT<CharT>(fmt, a1, ..., an)] *)
Definition strprintfT (fmt : list ascii) (args : list argument) : result (list ascii) :=
  oprintf [] fmt args.

(** ** Directives against arguments *)

(** What the parser returns on a well-formed directive that starts at
    [pos0]. *)
Definition parsed (t : directive_text) (pos0 : nat) : directive :=
  mkDirective (text_of t) (pos0 + length (text_of t))
              (digits_value (width_digits t))
              (precision_value (precision_digits t))
              (resolve_sizeChar (marker_sizeChar (marker t)) (conv t))
              (rewrite_fmtChar (conv t)).

(** The checks [Do] runs between parsing and rendering. *)
Definition checks (t : directive_text) (a : argument) : result Z :=
  let size := Z.land (tag_of a) Size.sizeMask in
  let type := Z.land (tag_of a) Ty.typeMask in
  legal <- legalPrintfTypeChars type ;;
  _ <- type_check size type legal (sizeChar (parsed t 0)) (fmtChar (parsed t 0)) ;;
  result_width (parsed t 0) (value_of a).

(** An argument is compatible with a directive when it passes them. *)
Definition accepts (t : directive_text) (a : argument) : bool :=
  is_Ok (checks t a).

(** The arguments are compatible with the directives, one for one. *)
Fixpoint accepts_all (ts : list directive_text) (args : list argument) : bool :=
  match ts, args with
  | [], [] => true
  | t :: ts', a :: args' => accepts t a && accepts_all ts' args'
  | _, _ => false
  end.

(** What one directive sends to the stream. *)
Definition rendered_directive (t : directive_text) (a : argument) : list ascii :=
  match checks t a with
  | Ok w => my_vsprintf w (text_of t) (value_of a)
  | Err _ => []
  end.

(** What a whole format string sends to the stream. *)
Fixpoint rendered (segs : list segment) (args : list argument) : list ascii :=
  match segs with
  | [] => []
  | Lit c :: segs' => c :: rendered segs' args
  | Percent :: segs' => "%"%char :: rendered segs' args
  | Directive t :: segs' =>
    match args with
    | a :: args' => rendered_directive t a ++ rendered segs' args'
    | [] => []
    end
  end.

(** Construct and feed: everything of [oprintf] but the destructor. *)
Definition run (p : Printf) (args : list argument) : result Printf :=
  p' <- OutputStaticText p ;; feed p' args.

(** ** Basic facts: the monad, the array, character classes *)

(** Lengths of concatenations against the capacity of [format]. *)
Ltac len_norm :=
  repeat (simpl in *;
          match goal with
          | |- context [length (_ ++ _)] => rewrite length_app
          | H : context [length (_ ++ _)] |- _ => rewrite length_app in H
          end).

Ltac len_solve :=
  simpl in *; len_norm; simpl in *; unfold format_capacity in *; lia.

Lemma bind_Ok_inv (A B : Type) (r : result A) (k : A -> result B) (b : B) :
  bind r k = Ok b -> exists a, r = Ok a /\ k a = Ok b.
Proof.
  destruct r as [a|f]; simpl; intros H; [eauto | discriminate].
Qed.

Lemma assertmsg_Ok_inv (e : bool) (msg : failure) (u : unit) :
  assertmsg e msg = Ok u -> e = true.
Proof.
  destruct e; simpl; [reflexivity | discriminate].
Qed.

Lemma fmt_from_app (pre rest : list ascii) :
  fmt_from (pre ++ rest) (length pre) = rest ++ [NUL].
Proof.
  unfold fmt_from. rewrite <- app_assoc.
  induction pre as [|c pre IH]; simpl; [reflexivity | exact IH].
Qed.

Lemma fmt_from_end (fmt : list ascii) : fmt_from fmt (length fmt) = [NUL].
Proof.
  rewrite <- (app_nil_r fmt) at 1. apply fmt_from_app.
Qed.

Lemma conv_char_facts (c : ascii) :
  is_conv c = true ->
  strchr "-+0 #" c = false /\ isdigit c = false /\ (c =? ".")%char = false
  /\ strchr "hlL" c = false /\ (c =? "I")%char = false
  /\ (c =? NUL)%char = false /\ (c =? "%")%char = false.
Proof.
  destruct c as [b0 b1 b2 b3 b4 b5 b6 b7].
  destruct b0, b1, b2, b3, b4, b5, b6, b7; intros H;
    try discriminate H; vm_compute; repeat split.
Qed.

Lemma flag_char_facts (c : ascii) :
  is_flag c = true ->
  strchr "-+0 #" c = true /\ (c =? NUL)%char = false /\ (c =? "%")%char = false.
Proof.
  destruct c as [b0 b1 b2 b3 b4 b5 b6 b7].
  destruct b0, b1, b2, b3, b4, b5, b6, b7; intros H;
    try discriminate H; vm_compute; repeat split.
Qed.

Lemma digit_char_facts (c : ascii) :
  isdigit c = true ->
  (c =? NUL)%char = false /\ (c =? "%")%char = false
  /\ (0 <= Z.of_nat (nat_of_ascii c) - 48 <= 9)%Z
  /\ ((c =? "0")%char = false -> strchr "-+0 #" c = false).
Proof.
  destruct c as [b0 b1 b2 b3 b4 b5 b6 b7].
  destruct b0, b1, b2, b3, b4, b5, b6, b7; intros H;
    try discriminate H; vm_compute; repeat split;
    intros; congruence.
Qed.

(** ** The copying loops on a run of flags or digits *)

Lemma copy_flags_app (fl rest : list ascii) :
  forallb is_flag fl = true ->
  stops (strchr "-+0 #") rest = true ->
  forall (p : nat) (f : list ascii),
    (length f + length fl <= format_capacity)%nat ->
    copy_flags (fl ++ rest) p f = Ok (mkCursor rest (p + length fl) (f ++ fl)).
Proof.
  intros Hfl Hstop. induction fl as [|c fl IH]; intros p f Hlen.
  - simpl. destruct rest as [|c rest]; [discriminate Hstop|].
    simpl in Hstop. apply negb_true_iff in Hstop. simpl. rewrite Hstop.
    rewrite Nat.add_0_r, app_nil_r. reflexivity.
  - simpl in Hfl. apply andb_true_iff in Hfl. destruct Hfl as [Hc Hfl].
    destruct (flag_char_facts c Hc) as [Hs _].
    simpl in Hlen. change ((c :: fl) ++ rest) with (c :: fl ++ rest).
    simpl copy_flags. rewrite Hs.
    replace (length f <? format_capacity)%nat with true
      by (symmetry; apply Nat.ltb_lt; lia).
    rewrite (IH Hfl (S p) (f ++ [c])).
    + rewrite <- app_assoc. simpl. do 2 f_equal. lia.
    + rewrite length_app. simpl. lia.
Qed.

Lemma digits_value_from_ge (ds : list ascii) :
  forallb isdigit ds = true ->
  forall n : Z, (0 <= n)%Z -> (n <= fold_left digit_step ds n)%Z.
Proof.
  induction ds as [|c ds IH]; intros Hds n Hn; simpl; [lia|].
  simpl in Hds. apply andb_true_iff in Hds. destruct Hds as [Hc Hds].
  destruct (digit_char_facts c Hc) as (_ & _ & Hd & _).
  assert (Hstep : (n <= digit_step n c)%Z) by (unfold digit_step; lia).
  specialize (IH Hds (digit_step n c)). lia.
Qed.

Lemma copy_digits_app (ds rest : list ascii) :
  forallb isdigit ds = true ->
  stops isdigit rest = true ->
  forall (p : nat) (f : list ascii) (n : Z),
    (length f + length ds <= format_capacity)%nat ->
    (0 <= n)%Z ->
    (fold_left digit_step ds n <= INT_MAX)%Z ->
    copy_digits (ds ++ rest) p f n
    = Ok (mkCursor rest (p + length ds) (f ++ ds), fold_left digit_step ds n).
Proof.
  intros Hds Hstop. induction ds as [|c ds IH]; intros p f n Hlen Hn Hmax.
  - simpl. destruct rest as [|c rest]; [discriminate Hstop|].
    simpl in Hstop. apply negb_true_iff in Hstop. simpl. rewrite Hstop.
    rewrite Nat.add_0_r, app_nil_r. reflexivity.
  - simpl in Hds. apply andb_true_iff in Hds. destruct Hds as [Hc Hds].
    destruct (digit_char_facts c Hc) as (_ & _ & Hd & _).
    simpl in Hlen, Hmax. change ((c :: ds) ++ rest) with (c :: ds ++ rest).
    simpl copy_digits. rewrite Hc.
    replace (length f <? format_capacity)%nat with true
      by (symmetry; apply Nat.ltb_lt; lia).
    fold (digit_step n c).
    assert (Hstep : (n <= digit_step n c)%Z) by (unfold digit_step; lia).
    pose proof (digits_value_from_ge ds Hds (n := digit_step n c)) as Hge.
    assert (Hfit : int_result (digit_step n c) = Ok (digit_step n c)).
    { unfold int_result.
      replace (- INT_MAX - 1 <=? digit_step n c)%Z with true
        by (symmetry; apply Z.leb_le; unfold INT_MAX; lia).
      replace (digit_step n c <=? INT_MAX)%Z with true
        by (symmetry; apply Z.leb_le; lia).
      reflexivity. }
    rewrite Hfit.
    rewrite (IH Hds (S p) (f ++ [c]) (digit_step n c)).
    + rewrite <- app_assoc. simpl. do 3 f_equal. lia.
    + rewrite length_app. simpl. lia.
    + lia.
    + exact Hmax.
Qed.

(** The [if (isdigit(_fmt[_pos]))] around the width loop repeats the
    loop's first test. *)
Lemma width_guard (B : Type) (K : cursor * Z -> result B)
      (m : list ascii) (p : nat) (f : list ascii) :
  (c <- peek m ;;
   x <- (if isdigit c then copy_digits m p f 0 else Ok (mkCursor m p f, 0%Z)) ;;
   K x)
  = (x <- copy_digits m p f 0 ;; K x).
Proof.
  destruct m as [|c m]; simpl; [reflexivity|].
  destruct (isdigit c); reflexivity.
Qed.

Lemma copy_cons (c : ascii) (m : list ascii) (p : nat) (f : list ascii) :
  (length f < format_capacity)%nat ->
  copy (mkCursor (c :: m) p f) = Ok (c, mkCursor m (S p) (f ++ [c])).
Proof.
  intros H. unfold copy. cbn [mem pos format].
  apply Nat.ltb_lt in H. rewrite H. reflexivity.
Qed.

(** ** The parser on a well-formed directive *)

Lemma stops_marker (P : ascii -> bool) (mk : size_marker) (cv : ascii)
      (rest : list ascii) :
  P "h"%char = false -> P "l"%char = false -> P "L"%char = false ->
  P "I"%char = false -> P cv = false ->
  stops P (marker_text mk ++ cv :: rest) = true.
Proof.
  intros Hh Hl HL HI Hcv. destruct mk; simpl;
    rewrite ?Hh, ?Hl, ?HL, ?HI, ?Hcv; reflexivity.
Qed.

Lemma stops_precision (P : ascii -> bool) (pr : option (list ascii))
      (rest : list ascii) :
  P "."%char = false -> stops P rest = true ->
  stops P (precision_text pr ++ rest) = true.
Proof.
  intros Hdot Hrest. destruct pr as [ds|]; simpl; [rewrite Hdot|]; auto.
Qed.

Lemma well_formed_inv (t : directive_text) :
  well_formed t = true ->
  forallb is_flag (flags t) = true
  /\ forallb isdigit (width_digits t) = true
  /\ no_leading_zero (width_digits t) = true
  /\ forallb isdigit (match precision_digits t with Some ds => ds | None => [] end) = true
  /\ is_conv (conv t) = true
  /\ (length (text_of t) < format_capacity)%nat
  /\ (digits_value (width_digits t) <= INT_MAX)%Z
  /\ (precision_value (precision_digits t) <= INT_MAX)%Z.
Proof.
  unfold well_formed. intros H.
  repeat (apply andb_true_iff in H; destruct H as [H ?]).
  repeat split; try assumption.
  - apply Nat.ltb_lt; assumption.
  - apply Z.leb_le; assumption.
  - apply Z.leb_le; assumption.
Qed.

Lemma is_I64_other (c : ascii) (m : list ascii) :
  (c =? "I")%char = false -> is_I64 (c :: m) = false.
Proof.
  intros H. destruct m as [|c1 [|c2 m]]; simpl; rewrite ?H; reflexivity.
Qed.

(** After flags, width and precision: the size marker, the conversion
    character and the length check. *)
Lemma parse_size_and_conv (mk : size_marker) (cv : ascii) (tail : list ascii)
      (p : nat) (f : list ascii) (wv pv : Z) :
  is_conv cv = true ->
  (length f + length (marker_text mk) + 1 < format_capacity)%nat ->
  (c <- peek (marker_text mk ++ cv :: tail ++ [NUL]) ;;
   x <- (if strchr "hlL" c then
           '(sc, k) <- copy (mkCursor (marker_text mk ++ cv :: tail ++ [NUL]) p f) ;;
           Ok (k, if (sc =? "L")%char then "l"%char else sc)
         else if is_I64 (marker_text mk ++ cv :: tail ++ [NUL]) then
           '(sc, k) <- copy (mkCursor (marker_text mk ++ cv :: tail ++ [NUL]) p f) ;;
           '(_, k) <- copy k ;;
           '(_, k) <- copy k ;;
           Ok (k, sc)
         else Ok (mkCursor (marker_text mk ++ cv :: tail ++ [NUL]) p f, NUL)) ;;
   (let (k5, sizeChar0) := x in
    c <- peek (mem k5) ;;
    _ <- assertmsg (negb (c =? NUL)%char) Invalid_format_specification ;;
    '(fmtChar0, k6) <- copy k5 ;;
    _ <- assertmsg (length (format k6) <? format_capacity)%nat
                   Format_specification_is_too_long ;;
    Ok (mkDirective (format k6) (pos k6) wv pv
                    (resolve_sizeChar sizeChar0 fmtChar0)
                    (rewrite_fmtChar fmtChar0))))
  = Ok (mkDirective (f ++ marker_text mk ++ [cv])
                    (p + length (marker_text mk) + 1) wv pv
                    (resolve_sizeChar (marker_sizeChar mk) cv)
                    (rewrite_fmtChar cv)).
Proof.
  intros Hcv Hf.
  destruct (conv_char_facts _ Hcv) as (Cf & Cd & Cdot & Cs & CI & Cnul & Cpct).
  assert (Hfin : forall (g : list ascii) (q : nat) (sc : ascii),
    (length g < format_capacity)%nat ->
    (_ <- assertmsg (length g <? format_capacity)%nat Format_specification_is_too_long ;;
     Ok (mkDirective g q wv pv (resolve_sizeChar sc cv) (rewrite_fmtChar cv)))
    = Ok (mkDirective g q wv pv (resolve_sizeChar sc cv) (rewrite_fmtChar cv))).
  { intros g q sc Hg. apply Nat.ltb_lt in Hg. rewrite Hg. reflexivity. }
  destruct mk; cbn [marker_text chars list_ascii_of_string app peek bind mem] in *.
  - rewrite Cs. rewrite (is_I64_other _ _ CI).
    cbn [bind mem peek]. rewrite Cnul. cbn [negb assertmsg bind].
    rewrite copy_cons by len_solve. cbn [bind mem pos format].
    rewrite Hfin by len_solve. cbn [marker_sizeChar length].
    do 2 f_equal. lia.
  - change (strchr "hlL" "h") with true. cbn iota.
    rewrite copy_cons by len_solve. cbn [bind mem pos format peek].
    change (("h" =? "L")%char) with false. cbn iota.
    rewrite Cnul. cbn [negb assertmsg bind].
    rewrite copy_cons by len_solve. cbn [bind mem pos format].
    rewrite Hfin by len_solve. cbn [marker_sizeChar length].
    rewrite <- app_assoc. cbn [app]. do 2 f_equal. lia.
  - change (strchr "hlL" "l") with true. cbn iota.
    rewrite copy_cons by len_solve. cbn [bind mem pos format peek].
    change (("l" =? "L")%char) with false. cbn iota.
    rewrite Cnul. cbn [negb assertmsg bind].
    rewrite copy_cons by len_solve. cbn [bind mem pos format].
    rewrite Hfin by len_solve. cbn [marker_sizeChar length].
    rewrite <- app_assoc. cbn [app]. do 2 f_equal. lia.
  - change (strchr "hlL" "L") with true. cbn iota.
    rewrite copy_cons by len_solve. cbn [bind mem pos format peek].
    change (("L" =? "L")%char) with true. cbn iota.
    rewrite Cnul. cbn [negb assertmsg bind].
    rewrite copy_cons by len_solve. cbn [bind mem pos format].
    rewrite Hfin by len_solve. cbn [marker_sizeChar length].
    rewrite <- app_assoc. cbn [app]. do 2 f_equal. lia.
  - change (strchr "hlL" "I") with false. cbn iota.
    change (is_I64 ("I"%char :: "6"%char :: "4"%char :: cv :: tail ++ [NUL])) with true.
    cbn iota.
    rewrite copy_cons by len_solve. cbn [bind mem pos format peek].
    rewrite copy_cons by len_solve. cbn [bind mem pos format peek].
    rewrite copy_cons by len_solve. cbn [bind mem pos format peek].
    rewrite Cnul. cbn [negb assertmsg bind].
    rewrite copy_cons by len_solve. cbn [bind mem pos format].
    rewrite Hfin by len_solve. cbn [marker_sizeChar length].
    rewrite <- !app_assoc. cbn [app]. do 2 f_equal. lia.
Qed.

Lemma parse_directive_text (t : directive_text) (pre tail ostm : list ascii) :
  well_formed t = true ->
  parse_directive (mkPrintf (pre ++ text_of t ++ tail) (length pre) ostm)
  = Ok (parsed t (length pre)).
Proof.
  intros Hwf. destruct (well_formed_inv t Hwf)
    as (Hfl & Hw & Hnz & Hp & Hcv & Hlen & Hwv & Hpv).
  destruct (conv_char_facts _ Hcv) as (Cf & Cd & Cdot & Cs & CI & Cnul & Cpct).
  destruct t as [fl w pr mk cv]. cbn [flags width_digits precision_digits marker conv] in *.
  unfold parse_directive, parsed.
  cbn [_fmt _pos flags width_digits precision_digits marker conv].
  rewrite fmt_from_app.
  set (R4 := cv :: tail ++ [NUL]).
  set (R3 := marker_text mk ++ R4).
  set (R2 := precision_text pr ++ R3).
  set (R1 := w ++ R2).
  assert (Hmem : (text_of (mkText fl w pr mk cv) ++ tail) ++ [NUL]
                 = "%"%char :: fl ++ R1).
  { unfold text_of, R1, R2, R3, R4.
    cbn [flags width_digits precision_digits marker conv].
    repeat (rewrite <- ?app_assoc; rewrite <- ?app_comm_cons). reflexivity. }
  rewrite Hmem. clear Hmem.
  assert (Htext : text_of (mkText fl w pr mk cv)
                  = "%"%char :: fl ++ w ++ precision_text pr ++ marker_text mk ++ [cv])
    by reflexivity.
  rewrite Htext in *. clear Htext.
  assert (Hlen' : (S (length fl + (length w + (length (precision_text pr)
                   + (length (marker_text mk) + 1)))) < format_capacity)%nat).
  { simpl in Hlen. rewrite !length_app in Hlen. simpl in Hlen. exact Hlen. }
  clear Hwf.
  assert (S3d : stops isdigit R3 = true)
    by (apply stops_marker; auto).
  assert (S2d : stops isdigit R2 = true)
    by (apply stops_precision; auto).
  assert (S2f : stops (strchr "-+0 #") R2 = true).
  { apply stops_precision; [reflexivity|]. apply stops_marker; auto. }
  assert (S1f : stops (strchr "-+0 #") R1 = true).
  { unfold R1. destruct w as [|c w]; [exact S2f|].
    simpl in Hw, Hnz |- *. apply andb_true_iff in Hw. destruct Hw as [Hc _].
    destruct (digit_char_facts c Hc) as (_ & _ & _ & Hz).
    apply negb_true_iff in Hnz. rewrite (Hz Hnz). reflexivity. }
  rewrite copy_cons by (simpl; unfold format_capacity; lia).
  cbn [bind]. change (("%" =? "%")%char) with true.
  cbn [bind assertmsg mem pos format app].
  rewrite (copy_flags_app fl R1 Hfl S1f)
    by (simpl; unfold format_capacity in *; lia).
  cbn [bind mem pos format].
  rewrite width_guard.
  unfold R1 at 1.
  rewrite (copy_digits_app w R2 Hw S2d)
    by (try exact Hwv; simpl; unfold format_capacity in *; lia).
  cbn [bind mem pos format].
  unfold R2, R3, R4 in *. clear R1 R2 R3 R4 S1f S2f.
  destruct pr as [ds|].
  - cbn [precision_text app peek bind].
    change (("." =? ".")%char) with true. cbn iota.
    rewrite copy_cons by len_solve.
    cbn [bind mem pos format].
    rewrite (copy_digits_app ds _ Hp S3d) by (try exact Hpv; len_solve).
    cbn [bind mem pos format].
    rewrite parse_size_and_conv by (try exact Hcv; len_solve).
    unfold digits_value, precision_value.
    f_equal. f_equal.
    + cbn [text_of precision_text app]; repeat (rewrite <- app_assoc; cbn [app]); reflexivity.
    + len_solve.
  - cbn [precision_text app].
    assert (Hpk : exists c r, marker_text mk ++ cv :: tail ++ [NUL] = c :: r
                              /\ (c =? ".")%char = false).
    { destruct mk; simpl; eauto. }
    destruct Hpk as (c & r & Hm & Hc).
    rewrite Hm at 1. cbn [peek bind]. rewrite Hc.
    cbn [bind mem pos format].
    rewrite parse_size_and_conv by (try exact Hcv; len_solve).
    unfold digits_value, precision_value.
    f_equal. f_equal.
    + cbn [text_of precision_text app]; repeat (rewrite <- app_assoc; cbn [app]); reflexivity.
    + len_solve.
Qed.

(** ** The scanner between directives *)

Lemma fmt_from_app_app (pre x rest : list ascii) :
  fmt_from (pre ++ x ++ rest) (length pre + length x) = rest ++ [NUL].
Proof.
  rewrite app_assoc, <- length_app. apply fmt_from_app.
Qed.

Lemma OutputStaticText_literal (pre rest ostm : list ascii) (c : ascii) :
  (c =? NUL)%char = false -> (c =? "%")%char = false ->
  OutputStaticText (mkPrintf (pre ++ [c] ++ rest) (length pre) ostm)
  = OutputStaticText (mkPrintf (pre ++ [c] ++ rest) (length pre + 1) (ostm ++ [c])).
Proof.
  intros Hnul Hpct. unfold OutputStaticText. cbn [_fmt _pos _ostm].
  rewrite fmt_from_app.
  change 1%nat with (length [c]). rewrite fmt_from_app_app.
  cbn [app OutputStaticText_loop length]. rewrite Hnul, Hpct.
  rewrite Nat.add_1_r. reflexivity.
Qed.

Lemma OutputStaticText_percent (pre rest ostm : list ascii) :
  OutputStaticText (mkPrintf (pre ++ chars "%%" ++ rest) (length pre) ostm)
  = OutputStaticText (mkPrintf (pre ++ chars "%%" ++ rest) (length pre + 2)
                               (ostm ++ chars "%")).
Proof.
  unfold OutputStaticText. cbn [_fmt _pos _ostm].
  rewrite fmt_from_app.
  change 2%nat with (length (chars "%%")). rewrite fmt_from_app_app.
  cbn [chars list_ascii_of_string app OutputStaticText_loop length].
  change (("%" =? NUL)%char) with false. change (("%" =? "%")%char) with true.
  cbn iota. rewrite Nat.add_comm. reflexivity.
Qed.

Lemma OutputStaticText_end (fmt ostm : list ascii) :
  OutputStaticText (mkPrintf fmt (length fmt) ostm) = Ok (mkPrintf fmt (length fmt) ostm).
Proof.
  unfold OutputStaticText. cbn [_fmt _pos _ostm]. rewrite fmt_from_end. reflexivity.
Qed.


Lemma text_of_second (t : directive_text) (tail : list ascii) :
  well_formed t = true ->
  exists c r, text_of t ++ tail = "%"%char :: c :: r
              /\ (c =? NUL)%char = false /\ (c =? "%")%char = false.
Proof.
  intros Hwf. destruct (well_formed_inv t Hwf)
    as (Hfl & Hw & _ & _ & Hcv & _).
  destruct (conv_char_facts _ Hcv) as (_ & _ & _ & _ & _ & Cnul & Cpct).
  destruct t as [fl w pr mk cv]. cbn [flags width_digits precision_digits marker conv] in *.
  set (P := fun c : ascii => ((c =? NUL) || (c =? "%"))%char).
  assert (HP : stops P (fl ++ w ++ precision_text pr ++ marker_text mk ++ cv :: tail) = true).
  { destruct fl as [|c fl].
    - destruct w as [|c w].
      + apply stops_precision; [reflexivity|].
        apply stops_marker; try reflexivity. unfold P. rewrite Cnul, Cpct. reflexivity.
      + simpl in Hw. cbn [app stops]. apply andb_true_iff in Hw. destruct Hw as [Hc _].
        destruct (digit_char_facts c Hc) as (Hn & Hp & _).
        unfold P. rewrite Hn, Hp. reflexivity.
    - simpl in Hfl. cbn [app stops]. apply andb_true_iff in Hfl. destruct Hfl as [Hc _].
      destruct (flag_char_facts c Hc) as (_ & Hn & Hp).
      unfold P. rewrite Hn, Hp. reflexivity. }
  destruct (fl ++ w ++ precision_text pr ++ marker_text mk ++ cv :: tail)
    as [|c r] eqn:E; [discriminate HP|].
  exists c, r. simpl in HP. apply negb_true_iff, orb_false_iff in HP.
  split; [|exact HP].
  unfold text_of. cbn [flags width_digits precision_digits marker conv].
  rewrite <- E. simpl. repeat (rewrite <- app_assoc; cbn [app]). reflexivity.
Qed.

Lemma OutputStaticText_at_directive (t : directive_text) (pre tail ostm : list ascii) :
  well_formed t = true ->
  OutputStaticText (mkPrintf (pre ++ text_of t ++ tail) (length pre) ostm)
  = Ok (mkPrintf (pre ++ text_of t ++ tail) (length pre) ostm).
Proof.
  intros Hwf. destruct (text_of_second t tail Hwf) as (c & r & E & Hn & Hp).
  unfold OutputStaticText. cbn [_fmt _pos _ostm].
  rewrite fmt_from_app, app_assoc, E.
  cbn [app OutputStaticText_loop].
  change (("%" =? NUL)%char) with false. change (("%" =? "%")%char) with true.
  cbn iota. rewrite Hn, Hp. reflexivity.
Qed.

(** ** [Do] on a well-formed directive *)

Lemma Do_directive (t : directive_text) (a : argument) (pre tail ostm : list ascii) :
  well_formed t = true ->
  Do (tag_of a) (value_of a) (mkPrintf (pre ++ text_of t ++ tail) (length pre) ostm)
  = (w <- checks t a ;;
     OutputStaticText
       (mkPrintf (pre ++ text_of t ++ tail) (length pre + length (text_of t))
                 (ostm ++ my_vsprintf w (text_of t) (value_of a)))).
Proof.
  intros Hwf. unfold Do, checks.
  destruct (legalPrintfTypeChars (Z.land (tag_of a) Ty.typeMask)) as [legal|f];
    [|reflexivity].
  cbn [bind]. rewrite (parse_directive_text t pre tail ostm Hwf).
  cbn [bind parsed sizeChar fmtChar].
  destruct (type_check _ _ _ _ _) as [u|f]; [|reflexivity].
  cbn [bind]. unfold result_width. cbn [fmtChar sizeChar width precision].
  reflexivity.
Qed.

Lemma accepts_checks (t : directive_text) (a : argument) :
  accepts t a = true -> exists w, checks t a = Ok w.
Proof.
  unfold accepts. destruct (checks t a) as [w|f]; [eauto | discriminate].
Qed.

Lemma feed_app (args more : list argument) (p : Printf) :
  feed p (args ++ more) = (p' <- feed p args ;; feed p' more).
Proof.
  revert p. induction args as [|a args IH]; intros p; simpl; [reflexivity|].
  destruct (shl p a) as [p'|f]; simpl; [apply IH | reflexivity].
Qed.

(** ** One segment of the format string at a time *)

Lemma reassociate (pre x rest ostm : list ascii) :
  mkPrintf (pre ++ x ++ rest) (length pre + length x) ostm
  = mkPrintf ((pre ++ x) ++ rest) (length (pre ++ x)) ostm.
Proof.
  rewrite app_assoc, length_app. reflexivity.
Qed.

Lemma run_literal (c : ascii) (pre rest ostm : list ascii) (args : list argument) :
  (c =? NUL)%char = false -> (c =? "%")%char = false ->
  run (mkPrintf (pre ++ [c] ++ rest) (length pre) ostm) args
  = run (mkPrintf ((pre ++ [c]) ++ rest) (length (pre ++ [c])) (ostm ++ [c])) args.
Proof.
  intros Hn Hp. unfold run.
  rewrite (OutputStaticText_literal pre rest ostm c Hn Hp).
  change 1%nat with (length [c]). rewrite reassociate. reflexivity.
Qed.

Lemma run_percent (pre rest ostm : list ascii) (args : list argument) :
  run (mkPrintf (pre ++ chars "%%" ++ rest) (length pre) ostm) args
  = run (mkPrintf ((pre ++ chars "%%") ++ rest) (length (pre ++ chars "%%"))
                  (ostm ++ chars "%")) args.
Proof.
  unfold run. rewrite OutputStaticText_percent.
  change 2%nat with (length (chars "%%")). rewrite reassociate. reflexivity.
Qed.

Lemma run_directive (t : directive_text) (a : argument) (args : list argument)
      (pre rest ostm : list ascii) :
  well_formed t = true ->
  run (mkPrintf (pre ++ text_of t ++ rest) (length pre) ostm) (a :: args)
  = (w <- checks t a ;;
     run (mkPrintf ((pre ++ text_of t) ++ rest) (length (pre ++ text_of t))
                   (ostm ++ my_vsprintf w (text_of t) (value_of a))) args).
Proof.
  intros Hwf. unfold run.
  rewrite (OutputStaticText_at_directive t pre rest ostm Hwf).
  cbn [bind feed]. unfold shl. rewrite (Do_directive t a pre rest ostm Hwf).
  destruct (checks t a) as [w|f]; [|reflexivity].
  cbn [bind]. rewrite reassociate. reflexivity.
Qed.

Lemma run_directive_nil (t : directive_text) (pre rest ostm : list ascii) :
  well_formed t = true ->
  run (mkPrintf (pre ++ text_of t ++ rest) (length pre) ostm) []
  = Ok (mkPrintf (pre ++ text_of t ++ rest) (length pre) ostm).
Proof.
  intros Hwf. unfold run.
  rewrite (OutputStaticText_at_directive t pre rest ostm Hwf). reflexivity.
Qed.

(** ** A whole well-formed format string *)

(** Compatible arguments carry the scanner across the segments; the
    stream receives what [rendered] says. *)
Lemma run_segments (segs : list segment) :
  forallb wf_segment segs = true ->
  forall (args more : list argument) (pre tail ostm : list ascii),
    accepts_all (directives segs) args = true ->
    run (mkPrintf (pre ++ format_of segs ++ tail) (length pre) ostm) (args ++ more)
    = run (mkPrintf ((pre ++ format_of segs) ++ tail) (length (pre ++ format_of segs))
                    (ostm ++ rendered segs args)) more.
Proof.
  induction segs as [|seg segs IH]; intros Hwf args more pre tail ostm Hacc.
  - destruct args as [|a args]; [|discriminate Hacc].
    cbn [format_of flat_map rendered app]. rewrite !app_nil_r. reflexivity.
  - simpl in Hwf. apply andb_true_iff in Hwf. destruct Hwf as [Hseg Hwf].
    change (format_of (seg :: segs)) with (segment_text seg ++ format_of segs).
    rewrite <- (app_assoc (segment_text seg)).
    destruct seg as [c| |t]; cbn [segment_text wf_segment directives rendered] in *.
    + apply andb_true_iff in Hseg. destruct Hseg as [Hn Hp].
      apply negb_true_iff in Hn, Hp.
      rewrite (run_literal c pre _ ostm _ Hn Hp).
      rewrite (IH Hwf args more (pre ++ [c]) tail (ostm ++ [c]) Hacc).
      rewrite <- !app_assoc. reflexivity.
    + rewrite run_percent.
      rewrite (IH Hwf args more (pre ++ chars "%%") tail (ostm ++ chars "%") Hacc).
      rewrite <- !app_assoc. reflexivity.
    + destruct args as [|a args]; [discriminate Hacc|].
      cbn [accepts_all] in Hacc. apply andb_true_iff in Hacc.
      destruct Hacc as [Ha Hacc].
      destruct (accepts_checks t a Ha) as [w Hw].
      cbn [app]. rewrite (run_directive t a _ pre _ ostm Hseg).
      unfold rendered_directive. rewrite Hw. cbn [bind].
      rewrite (IH Hwf args more (pre ++ text_of t) tail _ Hacc).
      rewrite <- !app_assoc. reflexivity.
Qed.

(** Whatever the arguments: they are compatible with all the directives
    (and some may be left over), or they run out at a directive, or one
    of them fails its checks. *)
Lemma run_segments_cases (segs : list segment) :
  forallb wf_segment segs = true ->
  forall (args : list argument) (pre tail ostm : list ascii),
    (exists args1 more,
        args = args1 ++ more /\ accepts_all (directives segs) args1 = true)
    \/ (exists p,
           run (mkPrintf (pre ++ format_of segs ++ tail) (length pre) ostm) args = Ok p
           /\ peek (fmt_from (_fmt p) (_pos p)) = Ok "%"%char)
    \/ (exists f,
           run (mkPrintf (pre ++ format_of segs ++ tail) (length pre) ostm) args = Err f).
Proof.
  induction segs as [|seg segs IH]; intros Hwf args pre tail ostm.
  - left. exists [], args. split; reflexivity.
  - simpl in Hwf. apply andb_true_iff in Hwf. destruct Hwf as [Hseg Hwf].
    change (format_of (seg :: segs)) with (segment_text seg ++ format_of segs).
    rewrite <- (app_assoc (segment_text seg)).
    destruct seg as [c| |t]; cbn [segment_text wf_segment directives] in *.
    + apply andb_true_iff in Hseg. destruct Hseg as [Hn Hp].
      apply negb_true_iff in Hn, Hp.
      rewrite (run_literal c pre _ ostm _ Hn Hp).
      apply (IH Hwf args (pre ++ [c]) tail (ostm ++ [c])).
    + rewrite run_percent.
      apply (IH Hwf args (pre ++ chars "%%") tail (ostm ++ chars "%")).
    + destruct args as [|a args].
      * right. left. eexists. split; [apply (run_directive_nil t pre _ ostm Hseg)|].
        cbn [_fmt _pos]. rewrite fmt_from_app. reflexivity.
      * rewrite (run_directive t a _ pre _ ostm Hseg).
        destruct (checks t a) as [w|f] eqn:Hw.
        -- cbn [bind].
           destruct (IH Hwf args (pre ++ text_of t) tail
                        (ostm ++ my_vsprintf w (text_of t) (value_of a)))
             as [(args1 & more & E & Hacc) | [H | H]].
           ++ left. exists (a :: args1), more. split; [rewrite E; reflexivity|].
              cbn [accepts_all]. unfold accepts. rewrite Hw, Hacc. reflexivity.
           ++ right. left. exact H.
           ++ right. right. exact H.
        -- right. right. exists f. reflexivity.
Qed.

(** ** Counting arguments *)

Lemma oprintf_run (ostm fmt : list ascii) (args : list argument) :
  oprintf ostm fmt args
  = (p <- run (mkPrintf fmt 0 ostm) args ;; _ <- Printf_dtor p ;; Ok (_ostm p)).
Proof.
  unfold oprintf, run, Printf_ctor.
  destruct (OutputStaticText (mkPrintf fmt 0 ostm)) as [p|f]; reflexivity.
Qed.

Lemma run_app (p : Printf) (args more : list argument) :
  run p (args ++ more) = (p' <- run p args ;; feed p' more).
Proof.
  unfold run. destruct (OutputStaticText p) as [p'|f]; [|reflexivity].
  cbn [bind]. apply feed_app.
Qed.

Lemma legal_tag_of (a : argument) :
  exists legal, legalPrintfTypeChars (Z.land (tag_of a) Ty.typeMask) = Ok legal.
Proof.
  destruct a; unfold legalPrintfTypeChars; cbn; eauto.
Qed.

(** With the cursor on the terminator, [Do] stops at its first check. *)
Lemma shl_at_end (p : Printf) (a : argument) :
  peek (fmt_from (_fmt p) (_pos p)) = Ok NUL ->
  shl p a = Err Too_many_arguments.
Proof.
  intros Hpeek. unfold shl, Do.
  destruct (legal_tag_of a) as [legal Hlegal]. rewrite Hlegal. cbn [bind].
  unfold parse_directive, copy. cbn [mem format].
  destruct (fmt_from (_fmt p) (_pos p)) as [|c m]; [discriminate Hpeek|].
  cbn [peek] in Hpeek. injection Hpeek as ->. reflexivity.
Qed.

(** Where [Do] succeeds, the cursor was on a ['%']. *)
Lemma shl_Ok_at_percent (p p' : Printf) (a : argument) :
  shl p a = Ok p' -> peek (fmt_from (_fmt p) (_pos p)) = Ok "%"%char.
Proof.
  unfold shl, Do. intros H.
  apply bind_Ok_inv in H. destruct H as (legal & _ & H).
  apply bind_Ok_inv in H. destruct H as (d & Hd & _).
  unfold parse_directive in Hd.
  apply bind_Ok_inv in Hd. destruct Hd as ([c0 k1] & Hcopy & Hd).
  apply bind_Ok_inv in Hd. destruct Hd as (u & Hassert & _).
  apply assertmsg_Ok_inv in Hassert. apply Ascii.eqb_eq in Hassert. subst c0.
  unfold copy in Hcopy. cbn [mem format] in Hcopy.
  destruct (fmt_from (_fmt p) (_pos p)) as [|c m]; [discriminate Hcopy|].
  cbn [length] in Hcopy. change (0 <? format_capacity)%nat with true in Hcopy.
  cbn iota in Hcopy. injection Hcopy as -> _. reflexivity.
Qed.

(** The destructor with the cursor on a ['%']. *)
Lemma Printf_dtor_at_percent (p : Printf) :
  peek (fmt_from (_fmt p) (_pos p)) = Ok "%"%char ->
  Printf_dtor p = Err Too_few_arguments.
Proof.
  intros H. unfold Printf_dtor. rewrite H. reflexivity.
Qed.

(** One argument fewer than a successful call. *)
Lemma one_argument_short (ostm fmt : list ascii) (args : list argument)
      (a : argument) (p : Printf) :
  run (mkPrintf fmt 0 ostm) (args ++ [a]) = Ok p ->
  exists p1, run (mkPrintf fmt 0 ostm) args = Ok p1
             /\ peek (fmt_from (_fmt p1) (_pos p1)) = Ok "%"%char
             /\ Printf_dtor p1 = Err Too_few_arguments
             /\ oprintf ostm fmt args = Err Too_few_arguments.
Proof.
  intros H. rewrite run_app in H.
  apply bind_Ok_inv in H. destruct H as (p1 & Hrun & Hfeed).
  cbn [feed] in Hfeed. apply bind_Ok_inv in Hfeed. destruct Hfeed as (p2 & Hshl & _).
  pose proof (shl_Ok_at_percent _ _ Hshl) as Hpeek.
  exists p1. repeat split; try assumption.
  - apply Printf_dtor_at_percent, Hpeek.
  - rewrite oprintf_run, Hrun. cbn [bind].
    rewrite (Printf_dtor_at_percent _ Hpeek). reflexivity.
Qed.

(** All the segments, from the start of the format string. *)
Lemma run_format (segs : list segment) (args more : list argument)
      (tail ostm : list ascii) :
  forallb wf_segment segs = true ->
  accepts_all (directives segs) args = true ->
  run (mkPrintf (format_of segs ++ tail) 0 ostm) (args ++ more)
  = run (mkPrintf (format_of segs ++ tail) (length (format_of segs))
                  (ostm ++ rendered segs args)) more.
Proof.
  intros Hwf Hacc.
  exact (run_segments segs Hwf args more [] tail ostm Hacc).
Qed.

Lemma run_format_end (segs : list segment) (args : list argument) (ostm : list ascii) :
  forallb wf_segment segs = true ->
  accepts_all (directives segs) args = true ->
  run (mkPrintf (format_of segs) 0 ostm) args
  = Ok (mkPrintf (format_of segs) (length (format_of segs))
                 (ostm ++ rendered segs args)).
Proof.
  intros Hwf Hacc.
  pose proof (run_format segs args [] [] ostm Hwf Hacc) as H.
  rewrite !app_nil_r in H. rewrite H.
  unfold run. rewrite OutputStaticText_end. reflexivity.
Qed.

Lemma accepts_all_length (ts : list directive_text) (args : list argument) :
  accepts_all ts args = true -> length args = length ts.
Proof.
  revert args. induction ts as [|t ts IH]; intros [|a args] H;
    try discriminate H; [reflexivity|].
  cbn [accepts_all] in H. apply andb_true_iff in H. destruct H as [_ H].
  simpl. f_equal. apply IH, H.
Qed.

(** The segments that close a format string, started anywhere in it. *)
Lemma run_segments_end (segs : list segment) (args : list argument)
      (pre ostm : list ascii) :
  forallb wf_segment segs = true ->
  accepts_all (directives segs) args = true ->
  run (mkPrintf (pre ++ format_of segs) (length pre) ostm) args
  = Ok (mkPrintf (pre ++ format_of segs) (length (pre ++ format_of segs))
                 (ostm ++ rendered segs args)).
Proof.
  intros Hwf Hacc.
  pose proof (run_segments segs Hwf args [] pre [] ostm Hacc) as H.
  rewrite !app_nil_r in H. rewrite H.
  unfold run. rewrite OutputStaticText_end. reflexivity.
Qed.

(** ** What the parser leaves in [format] *)

(** A directive the parser returns was stored inside [format], with room
    for the terminator. *)
Lemma parse_directive_in_bounds (p : Printf) (d : directive) :
  parse_directive p = Ok d -> (length (d_format d) < format_capacity)%nat.
Proof.
  unfold parse_directive. intros H.
  repeat match goal with
         | H : bind _ _ = Ok _ |- _ =>
           apply bind_Ok_inv in H; destruct H as (? & ? & H)
         | H : (let (_, _) := ?x in _) = Ok _ |- _ => destruct x
         end.
  injection H as <-. cbn [d_format].
  match goal with
  | A : assertmsg (_ <? _)%nat _ = Ok _ |- _ =>
    apply assertmsg_Ok_inv in A; apply Nat.ltb_lt in A; exact A
  end.
Qed.

(** ** Theorems of the specification *)

(** C1. For a format string cut into literal text, [%%] escapes and N
    well-formed directives: N arguments, each compatible with its
    directive, make the call succeed; with the last argument left out,
    the arguments that remain are all rendered and the destructor, finding
    the cursor still on a ['%'] and not on the terminator, fails with
    "Too few arguments" (ArgumentCountMismatch, too few); with one
    argument more, the extra [operator<<] starts [Do] with the cursor on
    the terminator, the character copied is not ['%'], and the call fails
    with "Too many arguments" (ArgumentCountMismatch, too many). *)
Theorem argument_count_is_checked (segs : list segment) (args : list argument)
        (ostm : list ascii) :
  forallb wf_segment segs = true ->
  accepts_all (directives segs) args = true ->
  length args = length (directives segs)
  /\ oprintf ostm (format_of segs) args = Ok (ostm ++ rendered segs args)
  /\ (forall args' a,
         args = args' ++ [a] ->
         exists p,
           run (mkPrintf (format_of segs) 0 ostm) args' = Ok p
           /\ peek (fmt_from (_fmt p) (_pos p)) = Ok "%"%char
           /\ Printf_dtor p = Err Too_few_arguments
           /\ oprintf ostm (format_of segs) args' = Err Too_few_arguments)
  /\ (forall a more,
         exists p,
           run (mkPrintf (format_of segs) 0 ostm) args = Ok p
           /\ peek (fmt_from (_fmt p) (_pos p)) = Ok NUL
           /\ shl p a = Err Too_many_arguments
           /\ oprintf ostm (format_of segs) (args ++ a :: more)
              = Err Too_many_arguments)
  /\ error_kind Too_few_arguments = Some ArgumentCountMismatch_too_few
  /\ error_kind Too_many_arguments = Some ArgumentCountMismatch_too_many.
Proof.
  intros Hwf Hacc.
  pose proof (run_format_end segs args ostm Hwf Hacc) as Hrun.
  assert (Hend : peek (fmt_from (format_of segs) (length (format_of segs))) = Ok NUL)
    by (rewrite fmt_from_end; reflexivity).
  split; [apply accepts_all_length, Hacc|].
  split; [|split; [|split; [|split; reflexivity]]].
  - rewrite oprintf_run, Hrun. cbn [bind]. unfold Printf_dtor.
    cbn [_fmt _pos _ostm]. rewrite Hend. reflexivity.
  - intros args' a E. subst args.
    apply (one_argument_short ostm (format_of segs) args' a Hrun).
  - intros a more. eexists. split; [exact Hrun|].
    cbn [_fmt _pos]. split; [exact Hend|].
    assert (Hshl : shl (mkPrintf (format_of segs) (length (format_of segs))
                                 (ostm ++ rendered segs args)) a
                   = Err Too_many_arguments)
      by (apply shl_at_end; exact Hend).
    split; [exact Hshl|].
    rewrite oprintf_run, run_app, Hrun. cbn [bind feed]. rewrite Hshl. reflexivity.
Qed.

(** C5, as the code has it.  On a well-formed directive the parser
    returns: for [c] or [s] without a size marker, the size-class of the
    format string's own character type ([h] for [char], [l] otherwise);
    for [C] or [S], the conversion rewritten to [c] or [s] (this is what
    the type check then sees) and, when there is no size marker, the
    opposite size-class; a size marker that is written is kept whatever
    the conversion character. *)
Theorem size_class_resolution (t : directive_text) (pre tail ostm : list ascii) :
  well_formed t = true ->
  exists d,
    parse_directive (mkPrintf (pre ++ text_of t ++ tail) (length pre) ostm) = Ok d
    /\ (marker t = no_marker ->
        conv t = "c"%char \/ conv t = "s"%char ->
        sizeChar d = (if CharT_is_char then "h" else "l")%char
        /\ fmtChar d = conv t)
    /\ (conv t = "C"%char -> fmtChar d = "c"%char)
    /\ (conv t = "S"%char -> fmtChar d = "s"%char)
    /\ (marker t = no_marker ->
        conv t = "C"%char \/ conv t = "S"%char ->
        sizeChar d = (if CharT_is_char then "l" else "h")%char)
    /\ (marker t <> no_marker -> sizeChar d = marker_sizeChar (marker t)).
Proof.
  intros Hwf. exists (parsed t (length pre)).
  split; [apply parse_directive_text, Hwf|].
  unfold parsed. cbn [sizeChar fmtChar].
  split; [|split; [|split; [|split]]].
  - intros Hm [Hc | Hc]; rewrite Hm, Hc; split; reflexivity.
  - intros Hc. rewrite Hc. reflexivity.
  - intros Hc. rewrite Hc. reflexivity.
  - intros Hm [Hc | Hc]; rewrite Hm, Hc; reflexivity.
  - intros Hm. destruct (marker t); [contradiction Hm|..]; reflexivity.
Qed.

(** C6. With the cursor on a ['%'] that is immediately followed by
    another ['%'], the scanner sends exactly one ['%'] to the stream, moves
    the cursor over both characters and goes on scanning from there; the
    arguments still to come are left as they are.  So a [%%] between any
    two well-formed stretches of a format string adds one ['%'] to the
    output and takes none of the arguments. *)
Theorem percent_percent_is_one_literal :
  (forall (m : list ascii) (pos : nat) (ostm : list ascii),
      OutputStaticText_loop ("%"%char :: "%"%char :: m) pos ostm
      = OutputStaticText_loop m (pos + 2) (ostm ++ ["%"%char]))
  /\ (forall (pre rest ostm : list ascii),
         OutputStaticText (mkPrintf (pre ++ chars "%%" ++ rest) (length pre) ostm)
         = OutputStaticText (mkPrintf (pre ++ chars "%%" ++ rest) (length pre + 2)
                                      (ostm ++ ["%"%char])))
  /\ (forall (pre rest ostm : list ascii) (args : list argument),
         run (mkPrintf (pre ++ chars "%%" ++ rest) (length pre) ostm) args
         = run (mkPrintf (pre ++ chars "%%" ++ rest) (length pre + 2)
                         (ostm ++ ["%"%char])) args)
  /\ (forall (segs1 segs2 : list segment) (args1 args2 : list argument)
             (ostm : list ascii),
         forallb wf_segment segs1 = true ->
         forallb wf_segment segs2 = true ->
         accepts_all (directives segs1) args1 = true ->
         accepts_all (directives segs2) args2 = true ->
         oprintf ostm (format_of segs1 ++ chars "%%" ++ format_of segs2)
                 (args1 ++ args2)
         = Ok (ostm ++ rendered segs1 args1 ++ "%"%char :: rendered segs2 args2)).
Proof.
  split; [|split; [|split]].
  - intros m pos ostm. cbn [OutputStaticText_loop].
    change (("%" =? NUL)%char) with false. change (("%" =? "%")%char) with true.
    cbn iota. rewrite Nat.add_comm. reflexivity.
  - intros pre rest ostm. apply OutputStaticText_percent.
  - intros pre rest ostm args. unfold run.
    rewrite OutputStaticText_percent. reflexivity.
  - intros segs1 segs2 args1 args2 ostm Hwf1 Hwf2 Hacc1 Hacc2.
    rewrite oprintf_run.
    rewrite (run_format segs1 args1 args2 (chars "%%" ++ format_of segs2) ostm Hwf1 Hacc1).
    rewrite run_percent.
    rewrite (run_segments_end segs2 args2 (format_of segs1 ++ chars "%%")
                              ((ostm ++ rendered segs1 args1) ++ chars "%") Hwf2 Hacc2).
    cbn [bind]. unfold Printf_dtor. cbn [_fmt _pos _ostm].
    rewrite fmt_from_end. cbn [peek bind].
    change ((NUL =? NUL)%char) with true. cbn [assertmsg bind].
    rewrite <- !app_assoc. reflexivity.
Qed.


Lemma gtb_max (a b : Z) : (if (a >? b)%Z then a else b) = Z.max a b.
Proof.
  destruct (Z.gtb_spec a b); lia.
Qed.

(** C9, as the code has it.  The size [Do] computes for the result buffer
    and hands to [my_vsprintf] is max(width, precision) + 30, where for a
    directive whose resolved conversion is [s] the width is first raised
    to the length of the argument string; for those directives the size is
    therefore at least the length of the string plus 30.  (A string
    argument printed with [%p] is a pointer conversion: its length does
    not enter.) *)
Theorem result_buffer_size (d : directive) (v : va_value) (cap : Z) :
  result_width d v = Ok cap ->
  (if (fmtChar d =? "s")%char
   then exists len,
       (if (sizeChar d =? "h")%char then va_strlen v else va_wcslen v) = Ok len
       /\ cap = (Z.max (Z.max (width d) len) (precision d) + 30)%Z
       /\ (len + 30 <= cap)%Z
   else cap = (Z.max (width d) (precision d) + 30)%Z)
  /\ (forall (sizeAndType : Z) (p p' : Printf),
         parse_directive p = Ok d ->
         Do sizeAndType v p = Ok p' ->
         OutputStaticText
           (mkPrintf (_fmt p) (d_pos d) (_ostm p ++ my_vsprintf cap (d_format d) v))
         = Ok p').
Proof.
  intros Hcap. split.
  - unfold result_width in Hcap.
    assert (Hint : forall z c, int_result z = Ok c -> c = z).
    { intros z c. unfold int_result.
      destruct ((- INT_MAX - 1 <=? z)%Z && (z <=? INT_MAX)%Z); intros E;
        [injection E as <-; reflexivity | discriminate E]. }
    destruct (fmtChar d =? "s")%char.
    + apply bind_Ok_inv in Hcap. destruct Hcap as (w & Hw & Hcap).
      apply bind_Ok_inv in Hw. destruct Hw as (len & Hlen & Hw).
      injection Hw as <-. apply Hint in Hcap.
      rewrite !gtb_max in Hcap. exists len. split.
      * destruct (sizeChar d =? "h")%char; [exact Hlen|].
        apply bind_Ok_inv in Hlen. destruct Hlen as (u' & _ & Hlen). exact Hlen.
      * subst cap. split; lia.
    + cbn [bind] in Hcap. apply Hint in Hcap. rewrite gtb_max in Hcap. lia.
  - intros sizeAndType p p' Hd HDo. unfold Do in HDo.
    apply bind_Ok_inv in HDo. destruct HDo as (legal & _ & HDo).
    rewrite Hd in HDo. cbn [bind] in HDo.
    apply bind_Ok_inv in HDo. destruct HDo as (u & _ & HDo).
    rewrite Hcap in HDo. exact HDo.
Qed.

(** * Further properties of the scanner, the parser and [Do] *)

Lemma bind_Err_inv (A B : Type) (r : result A) (k : A -> result B) (f : failure) :
  bind r k = Err f -> r = Err f \/ exists a, r = Ok a /\ k a = Err f.
Proof.
  destruct r as [a|f']; simpl; intros H; [right; eauto | left].
  injection H as ->. reflexivity.
Qed.

Lemma assertmsg_Err_inv (e : bool) (msg f : failure) :
  assertmsg e msg = Err f -> f = msg /\ e = false.
Proof.
  destruct e; simpl; intros H; [discriminate H | injection H as <-; auto].
Qed.

Lemma skipn_split (A : Type) (n : nat) (l cs rest : list A) :
  skipn n l = cs ++ rest -> skipn (n + length cs) l = rest.
Proof.
  intros H. rewrite Nat.add_comm, <- skipn_skipn, H.
  rewrite skipn_app, skipn_all, Nat.sub_diag. reflexivity.
Qed.

(** ** The scanner *)

Lemma OutputStaticText_loop_post (n : nat) :
  forall (m : list ascii) (pos : nat) (ostm : list ascii) (pos' : nat)
         (ostm' : list ascii),
    (length m <= n)%nat ->
    OutputStaticText_loop m pos ostm = Ok (pos', ostm') ->
    exists cs out rest,
      m = cs ++ rest
      /\ pos' = pos + length cs
      /\ ostm' = ostm ++ out
      /\ (length out <= length cs)%nat
      /\ forallb (fun c => negb (c =? NUL)%char) cs = true
      /\ (match rest with
          | c :: _ => (c =? NUL)%char = true
          | [] => False
          end
          \/ exists c rest', rest = "%"%char :: c :: rest'
                             /\ (c =? NUL)%char = false /\ (c =? "%")%char = false).
Proof.
  induction n as [|n IH]; intros m pos ostm pos' ostm' Hlen H.
  - destruct m; [discriminate H | simpl in Hlen; lia].
  - destruct m as [|c m1]; [discriminate H|].
    cbn [OutputStaticText_loop] in H.
    destruct (c =? NUL)%char eqn:Hnul.
    + injection H as <- <-. exists [], [], (c :: m1).
      rewrite Nat.add_0_r, app_nil_r. repeat split; auto.
    + destruct (c =? "%")%char eqn:Hpct.
      * apply Ascii.eqb_eq in Hpct. subst c.
        destruct m1 as [|c1 m2]; [discriminate H|].
        destruct (c1 =? NUL)%char eqn:Hnul1; [discriminate H|].
        destruct (c1 =? "%")%char eqn:Hpct1.
        -- apply Ascii.eqb_eq in Hpct1. subst c1.
           apply IH in H; [|simpl in Hlen; lia].
           destruct H as (cs & out & rest & -> & -> & -> & Hout & Hcs & Hstop).
           exists ("%"%char :: "%"%char :: cs), (chars "%" ++ out), rest.
           repeat split; auto; try (simpl in *; lia).
           rewrite app_assoc. reflexivity.
        -- injection H as <- <-. exists [], [], ("%"%char :: c1 :: m2).
           rewrite Nat.add_0_r, app_nil_r. repeat split; auto.
           right. exists c1, m2. auto.
      * apply IH in H; [|simpl in Hlen; lia].
        destruct H as (cs & out & rest & -> & -> & -> & Hout & Hcs & Hstop).
        exists (c :: cs), ([c] ++ out), rest.
        repeat split; auto; try (simpl in *; lia).
        -- rewrite app_assoc. reflexivity.
        -- simpl. rewrite Hnul. exact Hcs.
Qed.

Lemma OutputStaticText_inv (p p' : Printf) :
  OutputStaticText p = Ok p' ->
  exists cs out,
    fmt_from (_fmt p) (_pos p) = cs ++ fmt_from (_fmt p) (_pos p + length cs)
    /\ p' = mkPrintf (_fmt p) (_pos p + length cs) (_ostm p ++ out)
    /\ (length out <= length cs)%nat
    /\ forallb (fun c => negb (c =? NUL)%char) cs = true
    /\ (_pos p + length cs <= length (_fmt p))%nat
    /\ (peek (fmt_from (_fmt p) (_pos p + length cs)) = Ok NUL
        \/ exists c rest,
            fmt_from (_fmt p) (_pos p + length cs) = "%"%char :: c :: rest
            /\ (c =? NUL)%char = false /\ (c =? "%")%char = false).
Proof.
  unfold OutputStaticText. intros H.
  apply bind_Ok_inv in H. destruct H as ([pos' ostm'] & Hloop & H).
  injection H as <-.
  apply (OutputStaticText_loop_post (n := length (fmt_from (_fmt p) (_pos p))))
    in Hloop; [|lia].
  destruct Hloop as (cs & out & rest & Hm & -> & -> & Hout & Hcs & Hstop).
  assert (Hrest : fmt_from (_fmt p) (_pos p + length cs) = rest)
    by (apply skipn_split, Hm).
  assert (Hne : rest <> [])
    by (destruct Hstop as [Hs | (c & r & -> & _)];
        [destruct rest; [contradiction | discriminate] | discriminate]).
  exists cs, out. rewrite Hrest. repeat split; auto.
  - assert (Hlt : (_pos p + length cs < length (_fmt p ++ [NUL]))%nat).
    { destruct (Nat.lt_ge_cases (_pos p + length cs) (length (_fmt p ++ [NUL])))
        as [Hlt | Hge]; [exact Hlt|].
      exfalso. apply Hne. rewrite <- Hrest. apply skipn_all2. exact Hge. }
    rewrite length_app in Hlt. simpl in Hlt. lia.
  - destruct Hstop as [Hs | Hs]; [left | right; exact Hs].
    destruct rest as [|c r]; [contradiction|].
    apply Ascii.eqb_eq in Hs. subst c. reflexivity.
Qed.

(** X2. Where [OutputStaticText] returns, the format string is the same,
    the cursor has not moved back and is still inside the array, nothing
    of the text it passed was a terminator, the stream holds what it held
    followed by at most one character per character passed, and the cursor
    stands either on the terminator or on a ['%'] that starts a directive
    (the next character is neither the terminator nor ['%']). *)
Theorem OutputStaticText_stops_at_directive_or_end (p p' : Printf) :
  OutputStaticText p = Ok p' ->
  _fmt p' = _fmt p
  /\ (_pos p <= _pos p' <= length (_fmt p))%nat
  /\ (exists cs out,
         fmt_from (_fmt p) (_pos p) = cs ++ fmt_from (_fmt p) (_pos p')
         /\ _pos p' = _pos p + length cs
         /\ forallb (fun c => negb (c =? NUL)%char) cs = true
         /\ _ostm p' = _ostm p ++ out
         /\ (length out <= length cs)%nat)
  /\ (peek (fmt_from (_fmt p) (_pos p')) = Ok NUL
      \/ exists c rest, fmt_from (_fmt p) (_pos p') = "%"%char :: c :: rest
                        /\ (c =? NUL)%char = false /\ (c =? "%")%char = false).
Proof.
  intros H. apply OutputStaticText_inv in H.
  destruct H as (cs & out & Hm & -> & Hout & Hcs & Hin & Hstop).
  cbn [_fmt _pos _ostm].
  split; [reflexivity|]. split; [lia|]. split; [|exact Hstop].
  exists cs, out. repeat split; auto.
Qed.

(** ** The parser *)

Lemma advances_refl (k : cursor) : advances k k.
Proof.
  exists []. rewrite Nat.add_0_r, app_nil_r. auto.
Qed.

Lemma advances_trans (k1 k2 k3 : cursor) :
  advances k1 k2 -> advances k2 k3 -> advances k1 k3.
Proof.
  intros (cs1 & Hm1 & Hp1 & Hf1) (cs2 & Hm2 & Hp2 & Hf2).
  exists (cs1 ++ cs2). rewrite Hm1, Hm2, Hp2, Hp1, Hf2, Hf1, length_app.
  repeat split; [apply app_assoc | lia | symmetry; apply app_assoc].
Qed.

Lemma copy_advances (k k' : cursor) (c : ascii) :
  copy k = Ok (c, k') ->
  advances k k' /\ mem k = c :: mem k' /\ format k' = format k ++ [c]
  /\ (length (format k) < format_capacity)%nat.
Proof.
  unfold copy. destruct (mem k) as [|c0 m] eqn:Hm; [discriminate|].
  destruct (length (format k) <? format_capacity)%nat eqn:Hlen; [|discriminate].
  intros H. injection H as <- <-. cbn [mem format pos].
  apply Nat.ltb_lt in Hlen. repeat split; auto.
  exists [c0]. cbn [mem format pos length app]. repeat split; auto. lia.
Qed.

Lemma copy_flags_advances (k k' : cursor) :
  copy_flags (mem k) (pos k) (format k) = Ok k' -> advances k k'.
Proof.
  destruct k as [m p f]. cbn [mem pos format]. revert p f.
  induction m as [|c m IH]; intros p f H; [discriminate H|].
  cbn [copy_flags] in H. destruct (strchr "-+0 #" c).
  - destruct (length f <? format_capacity)%nat; [|discriminate H].
    apply IH in H. apply (advances_trans (k2 := mkCursor m (S p) (f ++ [c]))); [|exact H].
    exists [c]. cbn [mem format pos length app]. repeat split; auto. lia.
  - injection H as <-. apply advances_refl.
Qed.

Lemma copy_digits_advances (k k' : cursor) (n n' : Z) :
  copy_digits (mem k) (pos k) (format k) n = Ok (k', n') -> advances k k'.
Proof.
  destruct k as [m p f]. cbn [mem pos format]. revert p f n.
  induction m as [|c m IH]; intros p f n H; [discriminate H|].
  cbn [copy_digits] in H. destruct (isdigit c).
  - destruct (length f <? format_capacity)%nat; [|discriminate H].
    destruct (int_result _) as [n1|e]; [|discriminate H].
    apply IH in H. apply (advances_trans (k2 := mkCursor m (S p) (f ++ [c]))); [|exact H].
    exists [c]. cbn [mem format pos length app]. repeat split; auto. lia.
  - injection H as <- _. apply advances_refl.
Qed.

Lemma parse_directive_shape (p : Printf) (d : directive) :
  parse_directive p = Ok d ->
  exists k1 k5 k6 c sc0,
    copy (mkCursor (fmt_from (_fmt p) (_pos p)) (_pos p) []) = Ok ("%"%char, k1)
    /\ advances k1 k5
    /\ copy k5 = Ok (c, k6)
    /\ (c =? NUL)%char = false
    /\ (length (format k6) < format_capacity)%nat
    /\ d_format d = format k6 /\ d_pos d = pos k6
    /\ sizeChar d = resolve_sizeChar sc0 c /\ fmtChar d = rewrite_fmtChar c.
Proof.
  unfold parse_directive. intros H.
  apply bind_Ok_inv in H. destruct H as ([c0 k1] & Hc0 & H).
  apply bind_Ok_inv in H. destruct H as (u0 & Hpct & H).
  apply assertmsg_Ok_inv, Ascii.eqb_eq in Hpct. subst c0.
  apply bind_Ok_inv in H. destruct H as (k2 & Hfl & H).
  apply copy_flags_advances in Hfl.
  apply bind_Ok_inv in H. destruct H as (cw & _ & H).
  apply bind_Ok_inv in H. destruct H as ([k3 w] & Hw & H).
  assert (A23 : advances k2 k3).
  { destruct (isdigit cw); [apply copy_digits_advances in Hw; exact Hw|].
    injection Hw as <- _. apply advances_refl. }
  apply bind_Ok_inv in H. destruct H as (cp & _ & H).
  apply bind_Ok_inv in H. destruct H as ([k4 pr] & Hp & H).
  assert (A34 : advances k3 k4).
  { destruct (cp =? ".")%char.
    - apply bind_Ok_inv in Hp. destruct Hp as ([c' k'] & Hdot & Hp).
      apply copy_advances in Hdot. destruct Hdot as (Hadv & _).
      apply copy_digits_advances in Hp. apply (advances_trans Hadv Hp).
    - injection Hp as <- _. apply advances_refl. }
  apply bind_Ok_inv in H. destruct H as (cs & _ & H).
  apply bind_Ok_inv in H. destruct H as ([k5 sc0] & Hs & H).
  assert (A45 : advances k4 k5).
  { destruct (strchr "hlL" cs).
    - apply bind_Ok_inv in Hs. destruct Hs as ([c' k'] & Hcopy & Hs).
      injection Hs as <- _. apply copy_advances in Hcopy. apply Hcopy.
    - destruct (is_I64 (mem k4)).
      + apply bind_Ok_inv in Hs. destruct Hs as ([c1 k'1] & Hc1 & Hs).
        apply bind_Ok_inv in Hs. destruct Hs as ([c2 k'2] & Hc2 & Hs).
        apply bind_Ok_inv in Hs. destruct Hs as ([c3 k'3] & Hc3 & Hs).
        injection Hs as <- _.
        apply copy_advances in Hc1, Hc2, Hc3.
        apply (advances_trans (proj1 Hc1)), (advances_trans (proj1 Hc2)), Hc3.
      + injection Hs as <- _. apply advances_refl. }
  apply bind_Ok_inv in H. destruct H as (cc & Hpeek & H).
  apply bind_Ok_inv in H. destruct H as (u1 & Hnul & H).
  apply assertmsg_Ok_inv, negb_true_iff in Hnul.
  apply bind_Ok_inv in H. destruct H as ([c k6] & Hconv & H).
  apply bind_Ok_inv in H. destruct H as (u2 & Hlen & H).
  apply assertmsg_Ok_inv, Nat.ltb_lt in Hlen.
  injection H as <-. cbn [d_format d_pos sizeChar fmtChar].
  assert (Hcc : cc = c).
  { destruct (copy_advances _ Hconv) as (_ & Hm & _). rewrite Hm in Hpeek.
    injection Hpeek as ->. reflexivity. }
  subst cc.
  exists k1, k5, k6, c, sc0. repeat split; auto.
  apply (advances_trans Hfl), (advances_trans A23), (advances_trans A34), A45.
Qed.

Lemma parse_directive_span (p : Printf) (d : directive) :
  parse_directive p = Ok d ->
  exists body c sc0 rest,
    d_format d = "%"%char :: body ++ [c]
    /\ fmt_from (_fmt p) (_pos p) = d_format d ++ rest
    /\ d_pos d = _pos p + length (d_format d)
    /\ (length (d_format d) < format_capacity)%nat
    /\ (c =? NUL)%char = false
    /\ fmtChar d = rewrite_fmtChar c
    /\ sizeChar d = resolve_sizeChar sc0 c.
Proof.
  intros H. apply parse_directive_shape in H.
  destruct H as (k1 & k5 & k6 & c & sc0 & Hc0 & A15 & Hconv & Hnul & Hlen
                 & Hfmt & Hpos & Hsize & Hfc).
  apply copy_advances in Hc0. cbn [mem pos format app] in Hc0.
  destruct Hc0 as ((cs0 & Hm0 & Hp0 & Hf0) & Hm0' & Hf0' & _).
  cbn [mem pos format app] in Hm0, Hp0, Hf0.
  destruct A15 as (cs & Hm & Hp & Hf).
  apply copy_advances in Hconv.
  destruct Hconv as ((cs6 & Hm6 & Hp6 & Hf6) & Hm6' & Hf6' & _).
  assert (Hall : format k6 = "%"%char :: cs ++ [c])
    by (rewrite Hf6', Hf, Hf0'; reflexivity).
  exists cs, c, sc0, (mem k6). rewrite Hfmt, Hpos.
  split; [exact Hall|]. split.
  - rewrite Hall, Hm0', Hm, Hm6'. cbn [app]. rewrite <- app_assoc. reflexivity.
  - split; [|auto].
    rewrite Hall. rewrite Hf6' in Hf6. apply app_inv_head in Hf6. subst cs6.
    rewrite Hf0' in Hf0. cbn [app] in Hf0. subst cs0.
    cbn [length] in *. rewrite length_app. cbn [length]. lia.
Qed.

(** X3. A directive the parser returns is a verbatim copy of the format
    string: [format] holds exactly the characters between the old and the
    new cursor, the cursor has moved by their number, the text starts with
    ['%'] and ends with the conversion character as written (which is not
    the terminator; [C] and [S] are rewritten for the type check only), and
    it has between 2 and 29 characters. *)
Theorem parse_directive_copies_the_directive (p : Printf) (d : directive) :
  parse_directive p = Ok d ->
  fmt_from (_fmt p) (_pos p) = d_format d ++ fmt_from (_fmt p) (d_pos d)
  /\ d_pos d = _pos p + length (d_format d)
  /\ (2 <= length (d_format d) < format_capacity)%nat
  /\ exists body c sc0,
      d_format d = "%"%char :: body ++ [c]
      /\ (c =? NUL)%char = false
      /\ fmtChar d = rewrite_fmtChar c
      /\ sizeChar d = resolve_sizeChar sc0 c.
Proof.
  intros H. apply parse_directive_span in H.
  destruct H as (body & c & sc0 & rest & Hall & Hmem & Hpos & Hlen & Hnul & Hfc & Hsc).
  assert (Hrest : fmt_from (_fmt p) (_pos p + length (d_format d)) = rest)
    by (apply skipn_split, Hmem).
  rewrite Hpos, Hrest. split; [exact Hmem|]. split; [reflexivity|]. split.
  - split; [|exact Hlen]. rewrite Hall. cbn [length]. rewrite length_app.
    cbn [length]. lia.
  - exists body, c, sc0. auto.
Qed.

(** ** [Do] *)


(** ** The stream and the cursor across a whole call *)

Lemma OutputStaticText_loop_prepend (n : nat) :
  forall (m : list ascii) (pos : nat) (o1 o2 : list ascii),
    (length m <= n)%nat ->
    OutputStaticText_loop m pos (o1 ++ o2)
    = ('(pos', o') <- OutputStaticText_loop m pos o2 ;; Ok (pos', o1 ++ o')).
Proof.
  induction n as [|n IH]; intros m pos o1 o2 Hlen.
  - destruct m; [reflexivity | simpl in Hlen; lia].
  - destruct m as [|c m1]; [reflexivity|].
    cbn [OutputStaticText_loop].
    destruct (c =? NUL)%char; [reflexivity|].
    destruct (c =? "%")%char.
    + destruct m1 as [|c1 m2]; [reflexivity|].
      destruct (c1 =? NUL)%char; [reflexivity|].
      destruct (c1 =? "%")%char; [|reflexivity].
      rewrite <- app_assoc. apply IH. simpl in Hlen. lia.
    + rewrite <- app_assoc. apply IH. simpl in Hlen. lia.
Qed.

Lemma OutputStaticText_prepend (o : list ascii) (p : Printf) :
  OutputStaticText (prepend o p) = (p' <- OutputStaticText p ;; Ok (prepend o p')).
Proof.
  unfold OutputStaticText, prepend. cbn [_fmt _pos _ostm].
  rewrite (OutputStaticText_loop_prepend (n := length (fmt_from (_fmt p) (_pos p))))
    by lia.
  destruct (OutputStaticText_loop _ _ _) as [[pos' o']|f]; reflexivity.
Qed.

Lemma Do_prepend (o : list ascii) (sizeAndType : Z) (v : va_value) (p : Printf) :
  Do sizeAndType v (prepend o p) = (p' <- Do sizeAndType v p ;; Ok (prepend o p')).
Proof.
  unfold Do.
  destruct (legalPrintfTypeChars _) as [legal|f]; [|reflexivity].
  cbn [bind]. change (parse_directive (prepend o p)) with (parse_directive p).
  destruct (parse_directive p) as [d|f]; [|reflexivity].
  cbn [bind]. destruct (type_check _ _ _ _ _) as [u|f]; [|reflexivity].
  cbn [bind]. destruct (result_width d v) as [w|f]; [|reflexivity].
  cbn [bind]. unfold prepend at 1 2. cbn [_fmt _pos _ostm].
  rewrite <- app_assoc.
  apply (OutputStaticText_prepend o
           (mkPrintf (_fmt p) (d_pos d) (_ostm p ++ my_vsprintf w (d_format d) v))).
Qed.

Lemma feed_prepend (o : list ascii) (args : list argument) (p : Printf) :
  feed (prepend o p) args = (p' <- feed p args ;; Ok (prepend o p')).
Proof.
  revert p. induction args as [|a args IH]; intros p; [reflexivity|].
  cbn [feed]. unfold shl. rewrite Do_prepend.
  destruct (Do (tag_of a) (value_of a) p) as [p1|f]; [|reflexivity].
  cbn [bind]. apply IH.
Qed.

(** X5. [oprintf] on a stream that already holds text behaves as
    [strprintfT]: it fails exactly when [strprintfT] fails, with the same
    failure, and otherwise leaves the stream holding what it held followed
    by the string [strprintfT] returns.  What was in the stream is never
    changed, and never influences the call. *)
Theorem oprintf_appends_strprintf (ostm fmt : list ascii) (args : list argument) :
  oprintf ostm fmt args = (s <- strprintfT fmt args ;; Ok (ostm ++ s)).
Proof.
  unfold strprintfT, oprintf, Printf_ctor.
  replace (mkPrintf fmt 0 ostm) with (prepend ostm (mkPrintf fmt 0 []))
    by (unfold prepend; cbn [_fmt _pos _ostm]; rewrite app_nil_r; reflexivity).
  rewrite OutputStaticText_prepend.
  destruct (OutputStaticText (mkPrintf fmt 0 [])) as [p|f]; [|reflexivity].
  cbn [bind]. rewrite feed_prepend.
  destruct (feed p args) as [q|f]; [|reflexivity].
  cbn [bind]. change (Printf_dtor (prepend ostm q)) with (Printf_dtor q).
  destruct (Printf_dtor q) as [u|f]; reflexivity.
Qed.

Lemma bare_prepend (p : Printf) :
  p = prepend (_ostm p) (mkPrintf (_fmt p) (_pos p) []).
Proof.
  destruct p as [fmt pos ostm]. unfold prepend. cbn [_fmt _pos _ostm].
  rewrite app_nil_r. reflexivity.
Qed.

(** Where the scanner stops depends on the format string and the cursor
    only. *)
Lemma OutputStaticText_cursor (p1 p2 q1 q2 : Printf) :
  _fmt p1 = _fmt p2 -> _pos p1 = _pos p2 ->
  OutputStaticText p1 = Ok q1 -> OutputStaticText p2 = Ok q2 ->
  _fmt q1 = _fmt q2 /\ _pos q1 = _pos q2.
Proof.
  intros Hf Hp H1 H2.
  rewrite (bare_prepend p1), OutputStaticText_prepend in H1.
  rewrite (bare_prepend p2), OutputStaticText_prepend in H2.
  rewrite Hf, Hp in H1.
  destruct (OutputStaticText (mkPrintf (_fmt p2) (_pos p2) [])) as [q|f];
    [|discriminate H1].
  cbn [bind] in H1, H2. injection H1 as <-. injection H2 as <-.
  split; reflexivity.
Qed.

(** Where [Do] leaves the cursor depends on the format string and the
    cursor only, not on the argument. *)
Lemma Do_cursor (t1 t2 : Z) (v1 v2 : va_value) (p1 p2 q1 q2 : Printf) :
  _fmt p1 = _fmt p2 -> _pos p1 = _pos p2 ->
  Do t1 v1 p1 = Ok q1 -> Do t2 v2 p2 = Ok q2 ->
  _fmt q1 = _fmt q2 /\ _pos q1 = _pos q2.
Proof.
  intros Hf Hp H1 H2. unfold Do in H1, H2.
  apply bind_Ok_inv in H1. destruct H1 as (l1 & _ & H1).
  apply bind_Ok_inv in H1. destruct H1 as (d1 & Hd1 & H1).
  apply bind_Ok_inv in H1. destruct H1 as (u1 & _ & H1).
  apply bind_Ok_inv in H1. destruct H1 as (w1 & _ & H1).
  apply bind_Ok_inv in H2. destruct H2 as (l2 & _ & H2).
  apply bind_Ok_inv in H2. destruct H2 as (d2 & Hd2 & H2).
  apply bind_Ok_inv in H2. destruct H2 as (u2 & _ & H2).
  apply bind_Ok_inv in H2. destruct H2 as (w2 & _ & H2).
  assert (Hd : d1 = d2).
  { unfold parse_directive in Hd1, Hd2. rewrite Hf, Hp in Hd1.
    rewrite Hd1 in Hd2. injection Hd2 as ->. reflexivity. }
  subst d2.
  eapply OutputStaticText_cursor; [| |exact H1|exact H2]; cbn [_fmt _pos]; auto.
Qed.

Lemma feed_cursor (args1 args2 : list argument) :
  length args1 = length args2 ->
  forall p1 p2 q1 q2 : Printf,
    _fmt p1 = _fmt p2 -> _pos p1 = _pos p2 ->
    feed p1 args1 = Ok q1 -> feed p2 args2 = Ok q2 ->
    _fmt q1 = _fmt q2 /\ _pos q1 = _pos q2.
Proof.
  revert args2. induction args1 as [|a1 args1 IH]; intros [|a2 args2] Hlen;
    try discriminate Hlen; intros p1 p2 q1 q2 Hf Hp H1 H2.
  - injection H1 as <-. injection H2 as <-. auto.
  - cbn [feed] in H1, H2.
    apply bind_Ok_inv in H1. destruct H1 as (r1 & Hs1 & H1).
    apply bind_Ok_inv in H2. destruct H2 as (r2 & Hs2 & H2).
    destruct (Do_cursor _ _ _ _ _ _ Hf Hp Hs1 Hs2) as (Hf' & Hp').
    apply (IH args2 (eq_add_S _ _ Hlen) r1 r2 q1 q2 Hf' Hp' H1 H2).
Qed.

Lemma oprintf_Ok_inv (ostm fmt : list ascii) (args : list argument) (r : list ascii) :
  oprintf ostm fmt args = Ok r ->
  exists p q,
    Printf_ctor ostm fmt = Ok p /\ feed p args = Ok q
    /\ peek (fmt_from (_fmt q) (_pos q)) = Ok NUL /\ r = _ostm q.
Proof.
  unfold oprintf. intros H.
  apply bind_Ok_inv in H. destruct H as (p & Hp & H).
  apply bind_Ok_inv in H. destruct H as (q & Hq & H).
  apply bind_Ok_inv in H. destruct H as (u & Hd & H).
  injection H as <-. exists p, q. repeat split; auto.
  unfold Printf_dtor in Hd.
  apply bind_Ok_inv in Hd. destruct Hd as (c & Hc & Hd).
  apply assertmsg_Ok_inv, Ascii.eqb_eq in Hd. subst c. exact Hc.
Qed.

Lemma not_more_arguments (o1 o2 fmt : list ascii) (args1 args2 : list argument)
      (r1 r2 : list ascii) :
  oprintf o1 fmt args1 = Ok r1 -> oprintf o2 fmt args2 = Ok r2 ->
  ~ (length args1 < length args2)%nat.
Proof.
  intros H1 H2 Hlt.
  apply oprintf_Ok_inv in H1. destruct H1 as (p1 & q1 & Hc1 & Hf1 & Hend & _).
  apply oprintf_Ok_inv in H2. destruct H2 as (p2 & q2 & Hc2 & Hf2 & _ & _).
  rewrite <- (firstn_skipn (length args1) args2), feed_app in Hf2.
  apply bind_Ok_inv in Hf2. destruct Hf2 as (qn & Hfn & Hrest).
  destruct (skipn (length args1) args2) as [|a rest] eqn:Hskip.
  - apply (f_equal (@length argument)) in Hskip.
    rewrite length_skipn in Hskip. simpl in Hskip. lia.
  - cbn [feed] in Hrest. apply bind_Ok_inv in Hrest. destruct Hrest as (q' & Hshl & _).
    destruct (OutputStaticText_cursor (mkPrintf fmt 0 o1) (mkPrintf fmt 0 o2)
                eq_refl eq_refl Hc1 Hc2) as (Hf & Hp).
    assert (Hn : length args1 = length (firstn (length args1) args2))
      by (rewrite length_firstn; lia).
    destruct (feed_cursor _ _ Hn _ _ Hf Hp Hf1 Hfn) as (Hf' & Hp').
    rewrite Hf', Hp' in Hend.
    rewrite (shl_at_end _ a Hend) in Hshl. discriminate Hshl.
Qed.

(** X6. A format string fixes the number of arguments: two calls with the
    same format string that both succeed were given the same number of
    arguments, whatever the arguments and the streams. *)
Theorem successful_calls_have_the_same_argument_count
        (o1 o2 fmt : list ascii) (args1 args2 : list argument) (r1 r2 : list ascii) :
  oprintf o1 fmt args1 = Ok r1 ->
  oprintf o2 fmt args2 = Ok r2 ->
  length args1 = length args2.
Proof.
  intros H1 H2.
  pose proof (not_more_arguments _ _ _ _ _ H1 H2) as Hle.
  pose proof (not_more_arguments _ _ _ _ _ H2 H1) as Hge.
  lia.
Qed.

(** X7. Whatever the format string: where a call succeeds, the same call
    with any further arguments fails with "Too many arguments", and the
    same call without its last argument fails with "Too few arguments". *)
Theorem one_argument_more_or_less (ostm fmt : list ascii) (args : list argument)
        (r : list ascii) :
  oprintf ostm fmt args = Ok r ->
  (forall a more, oprintf ostm fmt (args ++ a :: more) = Err Too_many_arguments)
  /\ (forall args' a, args = args' ++ [a] ->
                      oprintf ostm fmt args' = Err Too_few_arguments).
Proof.
  intros H. split.
  - intros a more.
    apply oprintf_Ok_inv in H. destruct H as (p & q & Hc & Hf & Hend & _).
    unfold oprintf. rewrite Hc. cbn [bind]. rewrite feed_app, Hf. cbn [bind feed].
    rewrite (shl_at_end _ a Hend). reflexivity.
  - intros args' a E. subst args.
    rewrite oprintf_run in H.
    apply bind_Ok_inv in H. destruct H as (q & Hrun & _).
    destruct (one_argument_short _ _ _ _ Hrun) as (p1 & _ & _ & _ & Hfew).
    exact Hfew.
Qed.

(** ** Directives cut off by the end of the format string *)

Lemma parse_directive_until_size (fl w : list ascii) (pr : option (list ascii))
      (rest pre ostm : list ascii) :
  forallb is_flag fl = true ->
  forallb isdigit w = true ->
  forallb isdigit (match pr with Some ds => ds | None => [] end) = true ->
  (digits_value w <= INT_MAX)%Z ->
  (precision_value pr <= INT_MAX)%Z ->
  (S (length fl + length w + length (precision_text pr)) < format_capacity)%nat ->
  stops (strchr "-+0 #") (w ++ precision_text pr ++ rest ++ [NUL]) = true ->
  stops isdigit (precision_text pr ++ rest ++ [NUL]) = true ->
  stops isdigit (rest ++ [NUL]) = true ->
  stops (fun c => (c =? ".")%char) (rest ++ [NUL]) = true ->
  parse_directive
    (mkPrintf (pre ++ ("%"%char :: fl ++ w ++ precision_text pr) ++ rest)
              (length pre) ostm)
  = parse_size_and_conversion
      (mkCursor (rest ++ [NUL])
                (length pre + S (length fl + length w + length (precision_text pr)))
                ("%"%char :: fl ++ w ++ precision_text pr))
      (digits_value w) (precision_value pr).
Proof.
  intros Hfl Hw Hp Hwv Hpv Hlen S1f S2d S3d S3dot.
  unfold parse_directive.
  cbn [_fmt _pos]. rewrite fmt_from_app.
  replace ((("%"%char :: fl ++ w ++ precision_text pr) ++ rest) ++ [NUL])
    with ("%"%char :: fl ++ w ++ precision_text pr ++ rest ++ [NUL])
    by (cbn [app]; rewrite <- !app_assoc; reflexivity).
  rewrite copy_cons by (simpl; unfold format_capacity; lia).
  cbn [bind]. change (("%" =? "%")%char) with true.
  cbn [bind assertmsg mem pos format app].
  rewrite (copy_flags_app fl _ Hfl S1f) by (simpl; unfold format_capacity in *; lia).
  cbn [bind mem pos format].
  rewrite width_guard.
  rewrite (copy_digits_app w _ Hw S2d)
    by (try exact Hwv; simpl; unfold format_capacity in *; lia).
  cbn [bind mem pos format].
  destruct pr as [ds|]; cbn [precision_text app] in *.
  - cbn [peek bind]. change (("." =? ".")%char) with true. cbn iota.
    rewrite copy_cons by len_solve.
    cbn [bind mem pos format].
    rewrite (copy_digits_app ds _ Hp S3d) by (try exact Hpv; len_solve).
    cbn [bind mem pos format precision_value].
    match goal with
    | |- context [mkCursor _ ?P ?F] =>
      replace P with (length pre + S (length fl + length w + length ("."%char :: ds)))
        by len_solve;
      replace F with ("%"%char :: fl ++ w ++ "."%char :: ds)
        by (cbn [app]; rewrite <- !app_assoc; reflexivity)
    end.
    reflexivity.
  - destruct (rest ++ [NUL]) as [|c r] eqn:E; [discriminate S3dot|].
    cbn [stops] in S3dot. apply negb_true_iff in S3dot.
    cbn [peek bind]. rewrite S3dot. cbn [bind precision_value mem pos format].
    match goal with
    | |- context [mkCursor _ ?P ?F] =>
      replace P with (length pre + S (length fl + length w + length (@nil ascii)))
        by len_solve;
      replace F with ("%"%char :: fl ++ w ++ [])
        by (cbn [app]; rewrite ?app_nil_r; reflexivity)
    end.
    unfold parse_size_and_conversion. cbn [mem pos format peek bind]. reflexivity.
Qed.

Lemma copy_flags_past_end (fl : list ascii) :
  forallb is_flag fl = true ->
  forall (p : nat) (f : list ascii),
    (length f + length fl < format_capacity)%nat ->
    copy_flags (fl ++ [NUL]) p f = Err ReadPastTerminator.
Proof.
  intros Hfl. induction fl as [|c fl IH]; intros p f Hlen.
  - cbn [app copy_flags]. change (strchr "-+0 #" NUL) with true. cbn iota.
    replace (length f <? format_capacity)%nat with true
      by (symmetry; apply Nat.ltb_lt; simpl in Hlen; lia).
    reflexivity.
  - simpl in Hfl. apply andb_true_iff in Hfl. destruct Hfl as [Hc Hfl].
    destruct (flag_char_facts c Hc) as [Hs _].
    simpl in Hlen. change ((c :: fl) ++ [NUL]) with (c :: fl ++ [NUL]).
    simpl copy_flags. rewrite Hs.
    replace (length f <? format_capacity)%nat with true
      by (symmetry; apply Nat.ltb_lt; lia).
    apply IH; [exact Hfl|]. rewrite length_app. simpl. lia.
Qed.

Lemma parse_size_and_conversion_at_end (p : nat) (f : list ascii) (wv pv : Z) :
  (length f < format_capacity)%nat ->
  parse_size_and_conversion (mkCursor [NUL] p f) wv pv = Err ReadPastTerminator.
Proof.
  intros Hlen. unfold parse_size_and_conversion. cbn [mem peek bind].
  change (strchr "hlL" NUL) with true. cbn iota.
  rewrite copy_cons by exact Hlen. reflexivity.
Qed.

Lemma parse_size_and_conversion_after_marker (mk : size_marker) (p : nat)
      (f : list ascii) (wv pv : Z) :
  mk <> no_marker ->
  (length f + length (marker_text mk) <= format_capacity)%nat ->
  parse_size_and_conversion (mkCursor (marker_text mk ++ [NUL]) p f) wv pv
  = Err Invalid_format_specification.
Proof.
  intros Hmk Hlen. unfold parse_size_and_conversion.
  destruct mk; [congruence| | | |].
  - change (marker_text marker_h ++ [NUL]) with ["h"; NUL]%char in *.
    cbn [mem peek bind]. change (strchr "hlL" "h") with true. cbn iota.
    rewrite copy_cons by len_solve. reflexivity.
  - change (marker_text marker_l ++ [NUL]) with ["l"; NUL]%char in *.
    cbn [mem peek bind]. change (strchr "hlL" "l") with true. cbn iota.
    rewrite copy_cons by len_solve. reflexivity.
  - change (marker_text marker_L ++ [NUL]) with ["L"; NUL]%char in *.
    cbn [mem peek bind]. change (strchr "hlL" "L") with true. cbn iota.
    rewrite copy_cons by len_solve. reflexivity.
  - change (marker_text marker_I64 ++ [NUL]) with ["I"; "6"; "4"; NUL]%char in *.
    change (length (marker_text marker_I64)) with 3%nat in Hlen.
    cbn [mem peek bind]. change (strchr "hlL" "I") with false. cbn iota.
    change (is_I64 ["I"; "6"; "4"; NUL]%char) with true. cbn iota.
    rewrite copy_cons by len_solve. cbn [bind].
    rewrite copy_cons by len_solve. cbn [bind].
    rewrite copy_cons by len_solve. reflexivity.
Qed.

Lemma parse_directive_unfinished (t : directive_text) (pre ostm : list ascii) :
  well_formed t = true ->
  parse_directive (mkPrintf (pre ++ unfinished t) (length pre) ostm)
  = Err (match marker t with
         | no_marker => ReadPastTerminator
         | _ => Invalid_format_specification
         end).
Proof.
  intros Hwf. destruct (well_formed_inv t Hwf)
    as (Hfl & Hw & Hnz & Hp & Hcv & Hlen & Hwv & Hpv).
  destruct t as [fl w pr mk cv].
  unfold unfinished, text_of in *.
  cbn [flags width_digits precision_digits marker conv] in *.
  assert (Hcap : (S (length fl + length w + length (precision_text pr)
                     + length (marker_text mk)) < format_capacity)%nat)
    by len_solve.
  assert (Hdigit0 : forall c ds, forallb isdigit (c :: ds) = true ->
                                 no_leading_zero (c :: ds) = true ->
                                 strchr "-+0 #" c = false).
  { intros c ds Hd Hz. simpl in Hd. apply andb_true_iff in Hd. destruct Hd as [Hd _].
    destruct (digit_char_facts c Hd) as (_ & _ & _ & Hf). apply Hf.
    simpl in Hz. apply negb_true_iff in Hz. exact Hz. }
  assert (Hs1 : w <> [] \/ pr <> None \/ mk <> no_marker ->
                stops (strchr "-+0 #")
                      (w ++ precision_text pr ++ marker_text mk ++ [NUL]) = true).
  { intros H. destruct w as [|c w'].
    - destruct pr; [reflexivity|]. destruct mk; try reflexivity.
      destruct H as [H|[H|H]]; congruence.
    - cbn [app stops]. rewrite (Hdigit0 c w' Hw Hnz). reflexivity. }
  assert (Hs2 : stops isdigit (precision_text pr ++ marker_text mk ++ [NUL]) = true)
    by (destruct pr; destruct mk; reflexivity).
  assert (Hs3 : stops isdigit (marker_text mk ++ [NUL]) = true)
    by (destruct mk; reflexivity).
  assert (Hs4 : stops (fun c => (c =? ".")%char) (marker_text mk ++ [NUL]) = true)
    by (destruct mk; reflexivity).
  assert (Hgen : w <> [] \/ pr <> None \/ mk <> no_marker ->
                 parse_directive
                   (mkPrintf (pre ++ "%"%char :: fl ++ w ++ precision_text pr
                                  ++ marker_text mk) (length pre) ostm)
                 = parse_size_and_conversion
                     (mkCursor (marker_text mk ++ [NUL])
                               (length pre + S (length fl + length w
                                                + length (precision_text pr)))
                               ("%"%char :: fl ++ w ++ precision_text pr))
                     (digits_value w) (precision_value pr)).
  { intros H.
    replace ("%"%char :: fl ++ w ++ precision_text pr ++ marker_text mk)
      with (("%"%char :: fl ++ w ++ precision_text pr) ++ marker_text mk)
      by (cbn [app]; rewrite <- !app_assoc; reflexivity).
    apply parse_directive_until_size; auto. lia. }
  assert (Hend : parse_size_and_conversion
                   (mkCursor (marker_text mk ++ [NUL])
                             (length pre + S (length fl + length w
                                              + length (precision_text pr)))
                             ("%"%char :: fl ++ w ++ precision_text pr))
                   (digits_value w) (precision_value pr)
                 = Err (match mk with
                        | no_marker => ReadPastTerminator
                        | _ => Invalid_format_specification
                        end)).
  { destruct mk;
      [apply parse_size_and_conversion_at_end; len_solve
      |apply parse_size_and_conversion_after_marker;
       [discriminate|len_solve]..]. }
  destruct (list_eq_dec ascii_dec w []) as [Ew|Ew];
    [|rewrite Hgen by auto; exact Hend].
  destruct pr as [ds|]; [rewrite Hgen by (right; left; discriminate); exact Hend|].
  destruct mk;
    [|rewrite Hgen by (right; right; discriminate); exact Hend ..].
  (* nothing but flags: the flags loop runs over the terminator *)
  subst w. cbn [precision_text marker_text app].
  unfold parse_directive. cbn [_fmt _pos]. rewrite fmt_from_app.
  rewrite ?app_nil_r. cbn [app].
  rewrite copy_cons by (simpl; unfold format_capacity; lia).
  cbn [bind]. change (("%" =? "%")%char) with true.
  cbn [bind assertmsg mem pos format app].
  rewrite (copy_flags_past_end fl Hfl) by len_solve. reflexivity.
Qed.

(** X8.  A directive of the grammar whose conversion character is cut off
    by the end of the format string is rejected whatever the argument:
    after a size marker the assertion on the conversion character fails
    with "Invalid format specification"; without one, the terminator is
    itself copied as a flag or as a size marker and the parser reads the
    array past it. *)
Theorem cut_off_directive_is_rejected (t : directive_text) (pre ostm : list ascii)
        (a : argument) :
  well_formed t = true ->
  shl (mkPrintf (pre ++ unfinished t) (length pre) ostm) a
  = Err (match marker t with
         | no_marker => ReadPastTerminator
         | _ => Invalid_format_specification
         end).
Proof.
  intros Hwf. unfold shl, Do.
  destruct (legal_tag_of a) as [legal Hlegal]. rewrite Hlegal. cbn [bind].
  rewrite (parse_directive_unfinished t pre ostm Hwf). reflexivity.
Qed.

(** ** Where a call can fail *)

Lemma copy_Err_source (k : cursor) (f : failure) :
  copy k = Err f -> f <> Assertion_failed /\ f <> BadVaArg.
Proof.
  unfold copy. destruct (mem k); [|destruct (_ <? _)%nat]; intros H;
    try discriminate H; injection H as <-; split; discriminate.
Qed.

Lemma copy_flags_Err_source (m : list ascii) :
  forall (p : nat) (fm : list ascii) (f : failure),
    copy_flags m p fm = Err f -> f <> Assertion_failed /\ f <> BadVaArg.
Proof.
  induction m as [|c m IH]; intros p fm f H; cbn [copy_flags] in H.
  - injection H as <-. split; discriminate.
  - destruct (strchr "-+0 #" c); [|discriminate H].
    destruct (length fm <? format_capacity)%nat; [eapply IH; exact H|].
    injection H as <-. split; discriminate.
Qed.

Lemma copy_digits_Err_source (m : list ascii) :
  forall (p : nat) (fm : list ascii) (n : Z) (f : failure),
    copy_digits m p fm n = Err f -> f <> Assertion_failed /\ f <> BadVaArg.
Proof.
  induction m as [|c m IH]; intros p fm n f H; cbn [copy_digits] in H.
  - injection H as <-. split; discriminate.
  - destruct (isdigit c); [|discriminate H].
    destruct (length fm <? format_capacity)%nat;
      [|injection H as <-; split; discriminate].
    unfold int_result in H.
    destruct ((- INT_MAX - 1 <=? _) && (_ <=? INT_MAX))%Z;
      [eapply IH; exact H|].
    injection H as <-. split; discriminate.
Qed.

Lemma peek_Err_source (m : list ascii) (f : failure) :
  peek m = Err f -> f <> Assertion_failed /\ f <> BadVaArg.
Proof.
  destruct m; intros H; [|discriminate H]. injection H as <-. split; discriminate.
Qed.

Lemma parse_directive_Err_source (p : Printf) (f : failure) :
  parse_directive p = Err f -> f <> Assertion_failed /\ f <> BadVaArg.
Proof.
  unfold parse_directive. intros H.
  repeat match type of H with
         | bind _ _ = Err _ =>
           apply bind_Err_inv in H; destruct H as [H|(? & _ & H)]
         | (let (_, _) := ?x in _) = Err _ => destruct x
         end;
    repeat match type of H with
           | (if ?b then _ else _) = Err _ => destruct b
           | bind _ _ = Err _ =>
             apply bind_Err_inv in H; destruct H as [H|(? & _ & H)]
           | (let (_, _) := ?x in _) = Err _ => destruct x
           end;
    try discriminate H;
    try (apply copy_Err_source in H; exact H);
    try (apply copy_flags_Err_source in H; exact H);
    try (apply copy_digits_Err_source in H; exact H);
    try (apply peek_Err_source in H; exact H);
    try (apply assertmsg_Err_inv in H; destruct H as [-> _]; split; discriminate).
Qed.

Lemma OutputStaticText_loop_Err_source (n : nat) :
  forall (m : list ascii) (pos : nat) (ostm : list ascii) (f : failure),
    (length m <= n)%nat ->
    OutputStaticText_loop m pos ostm = Err f ->
    f <> Assertion_failed /\ f <> BadVaArg.
Proof.
  induction n as [|n IH]; intros m pos ostm f Hn H.
  - destruct m; [|simpl in Hn; lia]. injection H as <-. split; discriminate.
  - destruct m as [|c m]; cbn [OutputStaticText_loop] in H;
      [injection H as <-; split; discriminate|].
    simpl in Hn.
    destruct (c =? NUL)%char; [discriminate H|].
    destruct (c =? "%")%char.
    + destruct m as [|c1 m]; [injection H as <-; split; discriminate|].
      destruct (c1 =? NUL)%char; [injection H as <-; split; discriminate|].
      destruct (c1 =? "%")%char; [|discriminate H].
      eapply IH; [|exact H]. simpl in Hn. lia.
    + eapply IH; [|exact H]. lia.
Qed.

Lemma OutputStaticText_Err_source (p : Printf) (f : failure) :
  OutputStaticText p = Err f -> f <> Assertion_failed /\ f <> BadVaArg.
Proof.
  unfold OutputStaticText. intros H.
  apply bind_Err_inv in H. destruct H as [H|([? ?] & _ & H)]; [|discriminate H].
  eapply OutputStaticText_loop_Err_source; [|exact H]. apply Nat.le_refl.
Qed.

Lemma type_check_Err_source (size type : Z) (legal : string) (sc fc : ascii)
      (f : failure) :
  type_check size type legal sc fc = Err f ->
  f <> Assertion_failed /\ f <> BadVaArg.
Proof.
  unfold type_check, size_switch.
  change (sizeof_int =? sizeof_long)%Z with true. unfold assertmsg. cbn [bind].
  intros H.
  repeat match type of H with
         | context [if ?b then _ else _] => destruct b; cbn [bind] in H
         end;
    try discriminate H; injection H as <-; split; discriminate.
Qed.

Lemma int_result_Err_source (z : Z) (f : failure) :
  int_result z = Err f -> f <> Assertion_failed /\ f <> BadVaArg.
Proof.
  unfold int_result. destruct (_ && _); intros H; [discriminate H|].
  injection H as <-. split; discriminate.
Qed.

(** A [%s] directive has a size-class after the parser: the one of its
    marker, or the default of [s] or [S]. *)
Lemma string_directive_sizeChar (sc0 c : ascii) :
  rewrite_fmtChar c = "s"%char -> (resolve_sizeChar sc0 c =? NUL)%char = false.
Proof.
  unfold rewrite_fmtChar, resolve_sizeChar.
  destruct (c =? "C")%char eqn:EC; [discriminate|].
  destruct (sc0 =? NUL)%char eqn:E0; [|intros _; exact E0].
  destruct (c =? "S")%char eqn:ES.
  - intros _. apply Ascii.eqb_eq in ES. subst c. cbn.
    destruct CharT_is_char; reflexivity.
  - intros ->. cbn. destruct CharT_is_char; reflexivity.
Qed.

(** After the type check, a [%s] directive measures a string of the
    character width its size-class says. *)
Lemma result_width_Err_source (a : argument) (d : directive) (legal : string)
      (sc0 c : ascii) (f : failure) :
  legalPrintfTypeChars (Z.land (tag_of a) Ty.typeMask) = Ok legal ->
  type_check (Z.land (tag_of a) Size.sizeMask) (Z.land (tag_of a) Ty.typeMask)
             legal (sizeChar d) (fmtChar d) = Ok tt ->
  sizeChar d = resolve_sizeChar sc0 c ->
  fmtChar d = rewrite_fmtChar c ->
  result_width d (value_of a) = Err f ->
  f <> Assertion_failed /\ f <> BadVaArg.
Proof.
  intros Hl Ht Hs Hf H. unfold result_width in H.
  destruct (fmtChar d =? "s")%char eqn:E.
  2: { cbn [bind] in H. apply int_result_Err_source in H. exact H. }
  apply Ascii.eqb_eq in E. rewrite E in Ht.
  assert (Hn : (sizeChar d =? NUL)%char = false)
    by (rewrite Hs; apply string_directive_sizeChar; congruence).
  revert Ht H Hn. generalize (sizeChar d). intros sc Ht H Hn.
  unfold legalPrintfTypeChars in Hl. unfold type_check, size_switch in Ht.
  destruct (sc =? "h")%char eqn:Eh.
  - apply Ascii.eqb_eq in Eh. subst sc.
    destruct a; destruct STREAMPRINTF_STRICT_SIGN, STREAMPRINTF_STRICT_INTSIZE;
      vm_compute in Hl; injection Hl as <-; vm_compute in Ht;
      try discriminate Ht;
      cbn [value_of va_strlen bind] in H;
      (apply bind_Err_inv in H; destruct H as [H|(? & _ & H)];
       [apply bind_Err_inv in H; destruct H as [H|(? & _ & H)];
        [|discriminate H] |]);
      apply int_result_Err_source in H; exact H.
  - destruct (sc =? "l")%char eqn:El.
    + apply Ascii.eqb_eq in El. subst sc.
      destruct a; destruct STREAMPRINTF_STRICT_SIGN, STREAMPRINTF_STRICT_INTSIZE;
        vm_compute in Hl; injection Hl as <-; vm_compute in Ht;
        try discriminate Ht;
        cbn [value_of va_wcslen assertmsg bind] in H;
        change (("l" =? "l")%char) with true in H;
        cbn [value_of va_wcslen assertmsg bind] in H;
        (apply bind_Err_inv in H; destruct H as [H|(? & _ & H)];
         [apply bind_Err_inv in H; destruct H as [H|(? & _ & H)];
          [|discriminate H] |]);
        apply int_result_Err_source in H; exact H.
    + exfalso. clear H.
      revert Ht. generalize (sc =? "I")%char. rewrite ?Hn, ?Eh, ?El. intros bI Ht.
      destruct a; destruct STREAMPRINTF_STRICT_SIGN, STREAMPRINTF_STRICT_INTSIZE;
        vm_compute in Hl; injection Hl as <-; destruct bI;
        vm_compute in Ht; discriminate Ht.
Qed.

Lemma shl_Err_source (p : Printf) (a : argument) (f : failure) :
  shl p a = Err f -> f <> Assertion_failed /\ f <> BadVaArg.
Proof.
  unfold shl, Do. intros H.
  destruct (legal_tag_of a) as [legal Hlegal]. rewrite Hlegal in H. cbn [bind] in H.
  apply bind_Err_inv in H.
  destruct H as [H|(d & Hd & H)]; [apply parse_directive_Err_source in H; exact H|].
  apply bind_Err_inv in H.
  destruct H as [H|([] & Ht & H)]; [apply type_check_Err_source in H; exact H|].
  destruct (parse_directive_shape _ Hd)
    as (_ & _ & _ & c & sc0 & _ & _ & _ & _ & _ & _ & _ & Hs & Hf).
  apply bind_Err_inv in H.
  destruct H as [H|(w & _ & H)];
    [exact (result_width_Err_source a d sc0 c Hlegal Ht Hs Hf H)|].
  apply OutputStaticText_Err_source in H. exact H.
Qed.

Lemma feed_Err_source (args : list argument) :
  forall (p : Printf) (f : failure),
    feed p args = Err f -> f <> Assertion_failed /\ f <> BadVaArg.
Proof.
  induction args as [|a args IH]; intros p f H; cbn [feed] in H; [discriminate H|].
  apply bind_Err_inv in H. destruct H as [H|(p' & _ & H)].
  - apply shl_Err_source in H. exact H.
  - apply IH in H. exact H.
Qed.

(** X9. Whatever the format string and the arguments of the overloads, a
    call that fails does not fail at one of the internal assertions of
    [Do] (the [default] of the type switch, [sizeof(int) == sizeof(long)],
    [sizeChar == 'l'] before [wcslen]), and [Do] never measures a string
    argument at a character width other than its own: the type check has
    already stopped every such call. *)
Theorem internal_assertions_are_unreachable (ostm fmt : list ascii)
        (args : list argument) (f : failure) :
  oprintf ostm fmt args = Err f ->
  f <> Assertion_failed /\ f <> BadVaArg.
Proof.
  unfold oprintf, Printf_ctor, Printf_dtor. intros H.
  apply bind_Err_inv in H.
  destruct H as [H|(p & _ & H)]; [apply OutputStaticText_Err_source in H; exact H|].
  apply bind_Err_inv in H.
  destruct H as [H|(p' & _ & H)]; [apply feed_Err_source in H; exact H|].
  apply bind_Err_inv in H. destruct H as [H|(u & _ & H)]; [|discriminate H].
  apply bind_Err_inv in H.
  destruct H as [H|(c & _ & H)]; [apply peek_Err_source in H; exact H|].
  apply assertmsg_Err_inv in H. destruct H as [-> _]. split; discriminate.
Qed.

(** ** Well-formed format strings against any arguments *)

(** X10. The first argument that fails the checks of its directive decides
    the call: with the directives before it answered by compatible
    arguments, the call fails with the failure of that check, whatever
    follows the directive in the format string and whatever arguments
    follow it. *)
Theorem first_incompatible_argument_fails (segs : list segment) (t : directive_text)
        (tail ostm : list ascii) (args more : list argument) (a : argument)
        (f : failure) :
  forallb wf_segment segs = true ->
  well_formed t = true ->
  accepts_all (directives segs) args = true ->
  checks t a = Err f ->
  oprintf ostm (format_of segs ++ text_of t ++ tail) (args ++ a :: more) = Err f.
Proof.
  intros Hwf Ht Hacc Hf.
  rewrite oprintf_run.
  pose proof (run_segments segs Hwf args (a :: more) [] (text_of t ++ tail) ostm Hacc)
    as Hrun.
  cbn [app length] in Hrun. rewrite Hrun.
  rewrite (run_directive t a more (format_of segs) tail _ Ht).
  rewrite Hf. reflexivity.
Qed.

(** X11. On a format string made of literal characters, [%%] and
    well-formed directives, a call succeeds exactly when the arguments
    are compatible with the directives, one for one and in order. *)
Theorem success_iff_compatible (segs : list segment) (args : list argument)
        (ostm : list ascii) :
  forallb wf_segment segs = true ->
  is_Ok (oprintf ostm (format_of segs) args) = accepts_all (directives segs) args.
Proof.
  intros Hwf. rewrite oprintf_run.
  assert (Hend : forall o,
             Printf_dtor (mkPrintf (format_of segs) (length (format_of segs)) o)
             = Ok tt).
  { intros o. unfold Printf_dtor. cbn [_fmt _pos]. rewrite fmt_from_end. reflexivity. }
  destruct (accepts_all (directives segs) args) eqn:Hacc.
  - rewrite (run_format_end segs args ostm Hwf Hacc). cbn [bind].
    rewrite Hend. reflexivity.
  - pose proof (run_segments_cases segs Hwf args [] [] ostm) as Hcases.
    cbn [app length] in Hcases. rewrite app_nil_r in Hcases.
    destruct Hcases as [(args1 & more & -> & Hacc1) | [(p & Hrun & Hpeek) | (f & Hrun)]].
    + destruct more as [|a more]; [rewrite app_nil_r in Hacc; congruence|].
      rewrite run_app, (run_format_end segs args1 ostm Hwf Hacc1). cbn [bind feed].
      rewrite shl_at_end by (cbn [_fmt _pos]; rewrite fmt_from_end; reflexivity).
      reflexivity.
    + rewrite Hrun. cbn [bind]. rewrite (Printf_dtor_at_percent _ Hpeek). reflexivity.
    + rewrite Hrun. reflexivity.
Qed.

End Printf.

(** * Statements on the two build options and on concrete calls *)

Lemma argument_count_is_checked_witness :
  forallb wf_segment sample_segments = true
  /\ accepts_all false false narrow_char (directives sample_segments) sample_arguments = true
  /\ oprintf false false narrow_char echo_vsprintf [] (format_of sample_segments)
             sample_arguments
     = Ok (chars "n=<%d>% <%5s>")
  /\ oprintf false false narrow_char echo_vsprintf [] (format_of sample_segments)
             [arg_int 42]
     = Err Too_few_arguments
  /\ oprintf false false narrow_char echo_vsprintf [] (format_of sample_segments)
             (sample_arguments ++ [arg_int 0])
     = Err Too_many_arguments.
Proof.
  assert (Hwf : forallb wf_segment sample_segments = true) by reflexivity.
  assert (Hacc : accepts_all false false narrow_char (directives sample_segments)
                             sample_arguments = true) by reflexivity.
  destruct (argument_count_is_checked false false narrow_char echo_vsprintf
              sample_segments sample_arguments [] Hwf Hacc)
    as (_ & Hok & Hfew & Hmany & _).
  split; [exact Hwf|]. split; [exact Hacc|]. split; [exact Hok|]. split.
  - destruct (Hfew [arg_int 42] (arg_std_string (chars "hello!")) eq_refl)
      as (p & _ & _ & _ & H).
    exact H.
  - destruct (Hmany (arg_int 0) []) as (p & _ & _ & _ & H). exact H.
Defined.

(** C2, where the code departs from it.  The parser stores every character
    of the directive with [format[i++] = ...] and compares [i] with the
    capacity of [format] only afterwards.  A directive of 31 characters is
    therefore stored up to [format[30]], one element past the array, before
    any check runs: the run ends in that out-of-bounds store and not in
    "Format specification is too long".  The assertion is reached without
    such a store only for a directive of exactly 30 characters; a directive
    of 29 characters is the longest that is rendered, and every directive
    the parser does return lies inside [format]. *)
Theorem long_directive_is_stored_past_format
        (sign intsize : bool) (CharT : char_type)
        (vs : Z -> list ascii -> va_value -> list ascii)
        (ostm : list ascii) (n : Z) :
  oprintf sign intsize CharT vs ostm
          (chars "%00000000000000000000000000000d") [arg_int n]
  = Err (StoreOutOfBounds 30)
  /\ parse_directive CharT (mkPrintf (chars "%00000000000000000000000000000d") 0 ostm)
     = Err (StoreOutOfBounds format_capacity)
  /\ error_kind (StoreOutOfBounds 30) = None
  /\ oprintf sign intsize CharT vs ostm
             (chars "%0000000000000000000000000000d") [arg_int n]
     = Err Format_specification_is_too_long
  /\ oprintf sign intsize CharT vs ostm
             (chars "%000000000000000000000000000d") [arg_int n]
     = Ok (ostm ++ vs 30%Z (chars "%000000000000000000000000000d") (va_int n))
  /\ (forall (p : Printf) (d : directive),
         parse_directive CharT p = Ok d ->
         (length (d_format d) < format_capacity)%nat).
Proof.
  split; [destruct sign, intsize, CharT; reflexivity|].
  split; [destruct CharT; reflexivity|].
  split; [reflexivity|].
  split; [destruct sign, intsize, CharT; reflexivity|].
  split; [destruct sign, intsize, CharT; reflexivity|].
  intros p d. apply parse_directive_in_bounds.
Qed.

(** C3. With STREAMPRINTF_STRICT_SIGN the conversion characters legal for
    a signed integer are exactly [d i o x X] and for an unsigned integer
    exactly [u o x X] (the type check accepts these and no other character;
    NUL, which [strchr] finds in any string, is never a conversion
    character), and ["%u"] with a signed integer argument (of any size)
    fails with "Type mismatch"; without it both share [d i u o x X], and
    ["%u"] with an [int] succeeds. *)
Theorem strict_sign_conversions :
  legalPrintfTypeChars true Ty.Int = Ok "dioxX"%string
  /\ legalPrintfTypeChars true Ty.Unsigned = Ok "uoxX"%string
  /\ legalPrintfTypeChars false Ty.Int = Ok "diuoxX"%string
  /\ legalPrintfTypeChars false Ty.Unsigned = Ok "diuoxX"%string
  /\ (forall (intsize : bool) (c : ascii),
         is_Ok (type_check intsize Size.None Ty.Int "dioxX" NUL c)
         = existsb (Ascii.eqb c) (chars "dioxX") || (c =? NUL)%char)
  /\ (forall (intsize : bool) (c : ascii),
         is_Ok (type_check intsize Size.None Ty.Unsigned "uoxX" NUL c)
         = existsb (Ascii.eqb c) (chars "uoxX") || (c =? NUL)%char)
  /\ (forall intsize CharT vs ostm (b : bool) (n : Z),
         let fails a := oprintf true intsize CharT vs ostm (chars "%u") [a]
                        = Err Type_mismatch in
         fails (arg_int n) /\ fails (arg_bool b) /\ fails (arg_short n)
         /\ fails (arg_long n) /\ fails (arg_int64 n))
  /\ (forall intsize CharT vs ostm (n : Z),
         oprintf false intsize CharT vs ostm (chars "%u") [arg_int n]
         = Ok (ostm ++ vs 30%Z (chars "%u") (va_int n)))
  /\ error_kind Type_mismatch = Some TypeMismatch.
Proof.
  repeat split.
  - intros intsize c. destruct c as [b0 b1 b2 b3 b4 b5 b6 b7].
    destruct intsize, b0, b1, b2, b3, b4, b5, b6, b7; reflexivity.
  - intros intsize c. destruct c as [b0 b1 b2 b3 b4 b5 b6 b7].
    destruct intsize, b0, b1, b2, b3, b4, b5, b6, b7; reflexivity.
  - destruct intsize, CharT; reflexivity.
  - destruct intsize, CharT; reflexivity.
  - destruct intsize, CharT; reflexivity.
  - destruct intsize, CharT; reflexivity.
  - destruct intsize, CharT; reflexivity.
  - intros intsize CharT vs ostm n. destruct intsize, CharT; reflexivity.
Qed.

Lemma type_check_unsigned_short (intsize : bool) (legal : string)
      (sc fc : ascii) :
  type_check intsize Size.Short Ty.Unsigned legal sc fc
  = (if (sc =? (if (fc =? "c")%char then "l" else "h"))%char
     then assertmsg ((fc =? "c")%char || strchr legal fc) Type_mismatch
     else Err Type_mismatch).
Proof.
  unfold type_check.
  change ((Ty.Unsigned =? Ty.String)%Z) with false.
  change ((Ty.Unsigned =? Ty.Unsigned)%Z && (Size.Short =? Size.Short)%Z) with true.
  cbn [andb]. cbn iota.
  destruct (fc =? "c")%char;
    match goal with
    | |- context [(sc =? ?x)%char] => destruct (sc =? x)%char
    end; reflexivity.
Qed.

(** C4. For an argument tagged (Short, Unsigned) the type check asks for the
    size-class [l] when the resolved conversion character is [c] and for
    [h] otherwise; with any other size-class it fails with "Type
    mismatch".  With the right one, the conversion must be [c] or legal for
    unsigned integers.  So a directive accepts an [unsigned short] only
    with that size-class: ["%hu"] and ["%lc"] do, ["%u"] and ["%hc"] fail
    with "Type mismatch". *)
Theorem unsigned_short_size_class (intsize : bool) (legal : string)
        (sc fc : ascii) (u : Z) :
  type_check intsize Size.Short Ty.Unsigned legal sc fc
  = (if (sc =? (if (fc =? "c")%char then "l" else "h"))%char
     then assertmsg ((fc =? "c")%char || strchr legal fc) Type_mismatch
     else Err Type_mismatch)
  /\ size_of (arg_unsigned_short u) = Size.Short
  /\ type_of (arg_unsigned_short u) = Ty.Unsigned
  /\ (forall (sign : bool) (CharT : char_type) (t : directive_text),
         implb (accepts sign intsize CharT t (arg_unsigned_short u))
               (sizeChar (parsed CharT t 0)
                =? (if (fmtChar (parsed CharT t 0) =? "c") then "l" else "h"))%char
         = true)
  /\ (forall sign CharT vs ostm,
         oprintf sign intsize CharT vs ostm (chars "%hu") [arg_unsigned_short u]
         = Ok (ostm ++ vs 30%Z (chars "%hu") (va_int u))
         /\ oprintf sign intsize CharT vs ostm (chars "%lc") [arg_unsigned_short u]
            = Ok (ostm ++ vs 30%Z (chars "%lc") (va_int u))
         /\ oprintf sign intsize CharT vs ostm (chars "%u") [arg_unsigned_short u]
            = Err Type_mismatch
         /\ oprintf sign intsize CharT vs ostm (chars "%hc") [arg_unsigned_short u]
            = Err Type_mismatch)
  /\ error_kind Type_mismatch = Some TypeMismatch.
Proof.
  split; [apply type_check_unsigned_short|].
  split; [reflexivity|]. split; [reflexivity|].
  split; [|split; [|reflexivity]].
  - intros sign CharT t. unfold accepts, checks.
    change (Z.land (tag_of (arg_unsigned_short u)) Size.sizeMask) with Size.Short.
    change (Z.land (tag_of (arg_unsigned_short u)) Ty.typeMask) with Ty.Unsigned.
    assert (Hlegal : legalPrintfTypeChars sign Ty.Unsigned
                     = Ok (if sign then "uoxX" else "diuoxX")%string)
      by (destruct sign; reflexivity).
    rewrite Hlegal. cbn [bind]. rewrite type_check_unsigned_short.
    destruct (sizeChar (parsed CharT t 0)
              =? (if (fmtChar (parsed CharT t 0) =? "c") then "l" else "h"))%char.
    + apply implb_true_r.
    + reflexivity.
  - intros sign CharT vs ostm. destruct sign, intsize, CharT; repeat split; reflexivity.
Qed.


(** C8, as the code has it.  Outside the two special cases of the type
    check (a string argument printed with [%p], and an unsigned short
    argument): with STREAMPRINTF_STRICT_INTSIZE a directive passes only if
    "no size-class" goes with Size None and size-class [l] with Size Long,
    every failure being "Type mismatch"; without it, arguments of Size None
    and of Size Long pass the same directives, those with no size-class or
    with [l]. *)
Theorem strict_int_size (size type : Z) (legal : string) (sizeChar fmtChar : ascii) :
  In size [Size.None; Size.Short; Size.Long; Size.Int64] ->
  ((type =? Ty.String)%Z && (fmtChar =? "p")%char) = false ->
  ((type =? Ty.Unsigned)%Z && (size =? Size.Short)%Z) = false ->
  (type_check true size type legal sizeChar fmtChar = Ok tt ->
   (sizeChar = NUL <-> size = Size.None) /\ (sizeChar = "l"%char <-> size = Size.Long))
  /\ (forall f, type_check true size type legal sizeChar fmtChar = Err f ->
                f = Type_mismatch)
  /\ (size = Size.None ->
      type_check true size type legal sizeChar fmtChar
      = (_ <- assertmsg (sizeChar =? NUL)%char Type_mismatch ;;
         assertmsg (strchr legal fmtChar) Type_mismatch))
  /\ (size = Size.Long ->
      type_check true size type legal sizeChar fmtChar
      = (_ <- assertmsg (sizeChar =? "l")%char Type_mismatch ;;
         assertmsg (strchr legal fmtChar) Type_mismatch))
  /\ (size = Size.None \/ size = Size.Long ->
      type_check false size type legal sizeChar fmtChar
      = (_ <- assertmsg ((sizeChar =? NUL)%char || (sizeChar =? "l")%char) Type_mismatch ;;
         assertmsg (strchr legal fmtChar) Type_mismatch))
  /\ type_check false Size.None type legal sizeChar fmtChar
     = type_check false Size.Long type legal sizeChar fmtChar
  /\ (forall f, type_check false size type legal sizeChar fmtChar = Err f ->
                f = Type_mismatch)
  /\ error_kind Type_mismatch = Some TypeMismatch.
Proof.
  intros Hin Hsp Hus.
  assert (Hgen : forall b s,
             ((type =? Ty.Unsigned)%Z && (s =? Size.Short)%Z) = false ->
             type_check b s type legal sizeChar fmtChar
             = (_ <- size_switch b s sizeChar ;;
                assertmsg (strchr legal fmtChar) Type_mismatch)).
  { intros b s Hs. unfold type_check. rewrite Hsp, Hs. reflexivity. }
  assert (HNone : ((type =? Ty.Unsigned)%Z && (Size.None =? Size.Short)%Z) = false)
    by apply andb_false_r.
  assert (HLong : ((type =? Ty.Unsigned)%Z && (Size.Long =? Size.Short)%Z) = false)
    by apply andb_false_r.
  rewrite (Hgen true size Hus), (Hgen false size Hus),
    (Hgen false Size.None HNone), (Hgen false Size.Long HLong).
  clear Hgen HNone HLong Hsp Hus.
  destruct Hin as [<- | [<- | [<- | [<- | []]]]];
    unfold size_switch; cbn [Z.eqb Size.None Size.Short Size.Long Size.Int64
                             Pos.eqb orb bind];
    change ((sizeof_int =? sizeof_long)%Z) with true; cbn [assertmsg bind];
    destruct (Ascii.eqb_spec sizeChar NUL), (Ascii.eqb_spec sizeChar "l"),
             (Ascii.eqb_spec sizeChar "h"), (Ascii.eqb_spec sizeChar "I");
    subst; try discriminate;
    destruct (strchr legal fmtChar); cbn [assertmsg bind orb];
    repeat split; intros; try discriminate; try congruence;
    try (exfalso; intuition congruence);
    try (exfalso; intuition discriminate).
Qed.

Lemma strict_int_size_witness :
  In Size.None [Size.None; Size.Short; Size.Long; Size.Int64]
  /\ ((Ty.Int =? Ty.String)%Z && ("d" =? "p")%char) = false
  /\ ((Ty.Int =? Ty.Unsigned)%Z && (Size.None =? Size.Short)%Z) = false
  /\ type_check true Size.None Ty.Int "diuoxX" "l" "d" = Err Type_mismatch
  /\ type_check false Size.None Ty.Int "diuoxX" "l" "d" = Ok tt
  /\ oprintf false true narrow_char echo_vsprintf [] (chars "%ld") [arg_int 7]
     = Err Type_mismatch
  /\ oprintf false false narrow_char echo_vsprintf [] (chars "%ld") [arg_int 7]
     = Ok (chars "<%ld>").
Proof.
  assert (Hin : In Size.None [Size.None; Size.Short; Size.Long; Size.Int64])
    by (left; reflexivity).
  destruct (@strict_int_size Size.None Ty.Int "diuoxX" "l" "d" Hin eq_refl eq_refl)
    as (_ & _ & Hstrict & _ & Hlax & _).
  split; [exact Hin|]. split; [reflexivity|]. split; [reflexivity|].
  split; [rewrite (Hstrict eq_refl); reflexivity|].
  split; [rewrite (Hlax (or_introl eq_refl)); reflexivity|].
  split; reflexivity.
Defined.

Lemma size_class_resolution_witness :
  well_formed dir_S = true
  /\ exists d,
      parse_directive narrow_char (mkPrintf (chars "%S") 0 []) = Ok d
      /\ fmtChar d = "s"%char /\ sizeChar d = "l"%char.
Proof.
  assert (Hwf : well_formed dir_S = true) by reflexivity.
  split; [exact Hwf|].
  destruct (size_class_resolution narrow_char dir_S [] [] [] Hwf)
    as (d & Hd & _ & _ & HS & Hopp & _).
  exists d. split; [exact Hd|]. split.
  - apply HS. reflexivity.
  - apply Hopp; [reflexivity | right; reflexivity].
Defined.


Lemma result_buffer_size_witness :
  result_width (mkDirective (chars "%5.2s") 5 5 2 "h" "s") (va_char_ptr (chars "hello!"))
  = Ok 36%Z
  /\ parse_directive narrow_char (mkPrintf (chars "%5.2s") 0 [])
     = Ok (mkDirective (chars "%5.2s") 5 5 2 "h" "s")
  /\ Do false false narrow_char echo_vsprintf
        (tag_of (arg_std_string (chars "hello!"))) (va_char_ptr (chars "hello!"))
        (mkPrintf (chars "%5.2s") 0 [])
     = Ok (mkPrintf (chars "%5.2s") 5 (chars "<%5.2s>"))
  /\ exists len,
      va_strlen (va_char_ptr (chars "hello!")) = Ok len
      /\ 36%Z = (Z.max (Z.max 5 len) 2 + 30)%Z
      /\ (len + 30 <= 36)%Z.
Proof.
  assert (Hcap : result_width (mkDirective (chars "%5.2s") 5 5 2 "h" "s")
                              (va_char_ptr (chars "hello!")) = Ok 36%Z)
    by reflexivity.
  split; [exact Hcap|]. split; [reflexivity|]. split; [reflexivity|].
  destruct (@result_buffer_size false false narrow_char echo_vsprintf _ _ _ Hcap) as (Hsize & _).
  exact Hsize.
Defined.

Lemma percent_percent_is_one_literal_witness :
  forallb wf_segment [Lit "a"; Directive dir_d] = true
  /\ forallb wf_segment [Directive dir_5s] = true
  /\ oprintf false false narrow_char echo_vsprintf [] (chars "a%d%%%5s")
             [arg_int 1; arg_std_string (chars "x")]
     = Ok (chars "a<%d>%<%5s>").
Proof.
  assert (Hwf1 : forallb wf_segment [Lit "a"; Directive dir_d] = true) by reflexivity.
  assert (Hwf2 : forallb wf_segment [Directive dir_5s] = true) by reflexivity.
  split; [exact Hwf1|]. split; [exact Hwf2|].
  destruct (percent_percent_is_one_literal false false narrow_char echo_vsprintf)
    as (_ & _ & _ & Hglobal).
  exact (Hglobal [Lit "a"; Directive dir_d] [Directive dir_5s]
                 [arg_int 1] [arg_std_string (chars "x")] []
                 Hwf1 Hwf2 eq_refl eq_refl).
Defined.

(** C5 as stated fails where [C] or [S] comes with a size marker: in a
    [char] format string ["%hS"] is parsed with size-class [h], the
    string's own width and not the opposite one, and a narrow string is
    accepted for it. *)
Lemma written_marker_overrides_S :
  well_formed dir_hS = true
  /\ parse_directive narrow_char (mkPrintf (chars "%hS") 0 [])
     = Ok (mkDirective (chars "%hS") 3 0 0 "h" "s")
  /\ strprintfT false false narrow_char echo_vsprintf (chars "%hS")
                [arg_std_string (chars "x")]
     = Ok (chars "<%hS>")
  /\ ~ (forall (CharT : char_type) (t : directive_text) (pre tail ostm : list ascii),
           well_formed t = true ->
           conv t = "C"%char \/ conv t = "S"%char ->
           exists d,
             parse_directive CharT (mkPrintf (pre ++ text_of t ++ tail) (length pre) ostm)
             = Ok d
             /\ sizeChar d = (if CharT_is_char CharT then "l" else "h")%char).
Proof.
  split; [reflexivity|]. split; [reflexivity|]. split; [reflexivity|].
  intros H.
  destruct (H narrow_char dir_hS [] [] [] eq_refl (or_intror eq_refl))
    as (d & Hd & Hsize).
  vm_compute in Hd. injection Hd as <-. discriminate Hsize.
Qed.


(** C8 as stated fails in the two special cases of the type check: with
    STREAMPRINTF_STRICT_INTSIZE, ["%p"] (no size-class) accepts a wide
    string, whose Size is Long, and ["%lc"] accepts an unsigned short,
    whose Size is Short. *)
Lemma special_cases_ignore_strict_int_size :
  strprintfT false true narrow_char echo_vsprintf (chars "%p")
             [arg_const_wchar_ptr (chars "w")]
  = Ok (chars "<%p>")
  /\ size_of (arg_const_wchar_ptr (chars "w")) = Size.Long
  /\ strprintfT false true narrow_char echo_vsprintf (chars "%lc")
                [arg_unsigned_short 65]
     = Ok (chars "<%lc>")
  /\ size_of (arg_unsigned_short 65) = Size.Short
  /\ ~ (forall (a : argument) (t : directive_text),
           well_formed t = true ->
           accepts false true narrow_char t a = true ->
           (sizeChar (parsed narrow_char t 0) = NUL -> size_of a = Size.None)
           /\ (sizeChar (parsed narrow_char t 0) = "l"%char -> size_of a = Size.Long)).
Proof.
  split; [reflexivity|]. split; [reflexivity|].
  split; [reflexivity|]. split; [reflexivity|].
  intros H.
  destruct (H (arg_const_wchar_ptr (chars "w")) dir_p eq_refl eq_refl) as (Hnone & _).
  specialize (Hnone eq_refl). discriminate Hnone.
Qed.

(** C9 as stated fails for a string argument printed with [%p]: the
    length of the string does not enter the size of the buffer, which is
    30 for a string of 40 characters. *)
Lemma string_printed_as_pointer_buffer :
  checks false false narrow_char dir_p (arg_const_char_ptr (repeat "x"%char 40))
  = Ok 30%Z
  /\ strprintfT false false narrow_char echo_vsprintf (chars "%p")
                [arg_const_char_ptr (repeat "x"%char 40)]
     = Ok (chars "<%p>")
  /\ ~ (forall (t : directive_text) (a : argument) (s : list ascii) (w : Z),
           well_formed t = true ->
           value_of a = va_char_ptr s ->
           checks false false narrow_char t a = Ok w ->
           (Z.of_nat (length s) + 30 <= w)%Z).
Proof.
  split; [reflexivity|]. split; [reflexivity|].
  intros H.
  specialize (H dir_p (arg_const_char_ptr (repeat "x"%char 40))
                (repeat "x"%char 40) 30%Z eq_refl eq_refl eq_refl).
  vm_compute in H. apply H. reflexivity.
Qed.

(** * The calls named in the header and the README

    The three assertions of the README; the four lax calls that run by
    default; and the calls the header says assert with
    STREAMPRINTF_STRICT_SIGN and with STREAMPRINTF_STRICT_INTSIZE. *)
Lemma readme_calls (i l u : Z) :
  strprintfT false false narrow_char echo_vsprintf (chars "%s") [arg_int 3]
  = Err Type_mismatch
  /\ strprintfT false false narrow_char echo_vsprintf (chars "%s") []
     = Err Too_few_arguments
  /\ strprintfT false false narrow_char echo_vsprintf (chars "hello") [arg_int 3]
     = Err Too_many_arguments
  /\ strprintfT false false narrow_char echo_vsprintf (chars "hello %s")
                [arg_std_string (chars "s")]
     = Ok (chars "hello <%s>")
  /\ strprintfT false false narrow_char echo_vsprintf (chars "%d") [arg_long l]
     = Ok (chars "<%d>")
  /\ strprintfT false false narrow_char echo_vsprintf (chars "%ld") [arg_int i]
     = Ok (chars "<%ld>")
  /\ strprintfT false false narrow_char echo_vsprintf (chars "%u") [arg_int i]
     = Ok (chars "<%u>")
  /\ strprintfT false false narrow_char echo_vsprintf (chars "%d") [arg_unsigned_int u]
     = Ok (chars "<%d>")
  /\ strprintfT true false narrow_char echo_vsprintf (chars "%d") [arg_unsigned_int u]
     = Err Type_mismatch
  /\ strprintfT true false narrow_char echo_vsprintf (chars "%u") [arg_int i]
     = Err Type_mismatch
  /\ strprintfT false true narrow_char echo_vsprintf (chars "%ld") [arg_int i]
     = Err Type_mismatch
  /\ strprintfT false true narrow_char echo_vsprintf (chars "%d") [arg_long l]
     = Err Type_mismatch.
Proof.
  repeat split.
Qed.

(** * Further properties: the Type Tag, and the theorems above at concrete calls *)

(** X1. The Type Tag keeps its two axes apart: for a size within
    [sizeMask] and a type within [typeMask], the masks of [Do] give back
    the size and the type the overload has or-ed together. *)
Theorem tag_round_trip (size type : Z) :
  Z.land size Size.sizeMask = size ->
  Z.land type Ty.typeMask = type ->
  Z.land (PRINTF_TYPE size type) Size.sizeMask = size
  /\ Z.land (PRINTF_TYPE size type) Ty.typeMask = type.
Proof.
  intros Hs Ht. unfold PRINTF_TYPE. rewrite !Z.land_lor_distr_l, Hs, Ht.
  assert (Hst : Z.land size Ty.typeMask = 0%Z).
  { rewrite <- Hs, <- Z.land_assoc.
    change (Z.land Size.sizeMask Ty.typeMask) with 0%Z. apply Z.land_0_r. }
  assert (Hts : Z.land type Size.sizeMask = 0%Z).
  { rewrite <- Ht, <- Z.land_assoc.
    change (Z.land Ty.typeMask Size.sizeMask) with 0%Z. apply Z.land_0_r. }
  rewrite Hst, Hts, Z.lor_0_r, Z.lor_0_l. split; reflexivity.
Qed.

Lemma tag_round_trip_witness :
  Z.land Size.Short Size.sizeMask = Size.Short
  /\ Z.land Ty.String Ty.typeMask = Ty.String
  /\ Z.land (tag_of (arg_std_string (chars "abc"))) Size.sizeMask = Size.Short
  /\ Z.land (tag_of (arg_std_string (chars "abc"))) Ty.typeMask = Ty.String.
Proof.
  split; [reflexivity|]. split; [reflexivity|].
  exact (@tag_round_trip Size.Short Ty.String eq_refl eq_refl).
Defined.

Lemma OutputStaticText_stops_at_directive_or_end_witness :
  OutputStaticText (mkPrintf (chars "a%%b%d") 0 (chars ">"))
  = Ok (mkPrintf (chars "a%%b%d") 4 (chars ">a%b"))
  /\ (peek (fmt_from (chars "a%%b%d") 4) = Ok NUL
      \/ exists c rest,
          fmt_from (chars "a%%b%d") 4 = "%"%char :: c :: rest
          /\ (c =? NUL)%char = false /\ (c =? "%")%char = false).
Proof.
  split; [reflexivity|].
  exact (proj2 (proj2 (proj2
    (@OutputStaticText_stops_at_directive_or_end
       (mkPrintf (chars "a%%b%d") 0 (chars ">"))
       (mkPrintf (chars "a%%b%d") 4 (chars ">a%b")) eq_refl)))).
Defined.

Lemma parse_directive_copies_the_directive_witness :
  parse_directive narrow_char (mkPrintf (chars "x%-5.2ldy") 1 [])
  = Ok (mkDirective (chars "%-5.2ld") 8 5 2 "l" "d")
  /\ fmt_from (chars "x%-5.2ldy") 1 = chars "%-5.2ld" ++ fmt_from (chars "x%-5.2ldy") 8.
Proof.
  split; [reflexivity|].
  exact (proj1
    (@parse_directive_copies_the_directive narrow_char
       (mkPrintf (chars "x%-5.2ldy") 1 [])
       (mkDirective (chars "%-5.2ld") 8 5 2 "l" "d") eq_refl)).
Defined.


Lemma successful_calls_have_the_same_argument_count_witness :
  oprintf false false narrow_char echo_vsprintf [] (chars "%d %s")
          [arg_int 1; arg_std_string (chars "a")] = Ok (chars "<%d> <%s>")
  /\ oprintf false false narrow_char echo_vsprintf (chars ">") (chars "%d %s")
             [arg_long 2; arg_const_char_ptr (chars "bc")] = Ok (chars "><%d> <%s>")
  /\ length [arg_int 1; arg_std_string (chars "a")]
     = length [arg_long 2; arg_const_char_ptr (chars "bc")].
Proof.
  split; [reflexivity|]. split; [reflexivity|].
  exact (@successful_calls_have_the_same_argument_count
           false false narrow_char echo_vsprintf [] (chars ">") (chars "%d %s")
           [arg_int 1; arg_std_string (chars "a")]
           [arg_long 2; arg_const_char_ptr (chars "bc")]
           (chars "<%d> <%s>") (chars "><%d> <%s>") eq_refl eq_refl).
Defined.

Lemma one_argument_more_or_less_witness :
  oprintf false false narrow_char echo_vsprintf [] (chars "%d %s")
          [arg_int 1; arg_std_string (chars "a")] = Ok (chars "<%d> <%s>")
  /\ oprintf false false narrow_char echo_vsprintf [] (chars "%d %s")
             ([arg_int 1; arg_std_string (chars "a")] ++ [arg_int 3])
     = Err Too_many_arguments
  /\ oprintf false false narrow_char echo_vsprintf [] (chars "%d %s") [arg_int 1]
     = Err Too_few_arguments.
Proof.
  split; [reflexivity|].
  destruct (@one_argument_more_or_less
              false false narrow_char echo_vsprintf [] (chars "%d %s")
              [arg_int 1; arg_std_string (chars "a")] (chars "<%d> <%s>") eq_refl)
    as [Hmore Hless].
  split; [apply Hmore | apply (Hless [arg_int 1] (arg_std_string (chars "a"))); reflexivity].
Defined.

Lemma cut_off_directive_is_rejected_witness :
  well_formed (mkText (chars "-") (chars "5") None marker_l "d") = true
  /\ shl false false narrow_char echo_vsprintf
         (mkPrintf (chars "ab%-5l") 2 []) (arg_long 1)
     = Err Invalid_format_specification
  /\ well_formed (mkText (chars "-") (chars "5") None no_marker "d") = true
  /\ shl false false narrow_char echo_vsprintf
         (mkPrintf (chars "ab%-5") 2 []) (arg_long 1)
     = Err ReadPastTerminator.
Proof.
  split; [reflexivity|].
  split; [exact (@cut_off_directive_is_rejected false false narrow_char echo_vsprintf
                   (mkText (chars "-") (chars "5") None marker_l "d")
                   (chars "ab") [] (arg_long 1) eq_refl)|].
  split; [reflexivity|].
  exact (@cut_off_directive_is_rejected false false narrow_char echo_vsprintf
           (mkText (chars "-") (chars "5") None no_marker "d")
           (chars "ab") [] (arg_long 1) eq_refl).
Defined.

Lemma internal_assertions_are_unreachable_witness :
  oprintf false false narrow_char echo_vsprintf [] (chars "%ls")
          [arg_std_string (chars "a")] = Err Type_mismatch
  /\ Type_mismatch <> Assertion_failed /\ Type_mismatch <> BadVaArg.
Proof.
  split; [reflexivity|].
  exact (@internal_assertions_are_unreachable false false narrow_char echo_vsprintf
           [] (chars "%ls") [arg_std_string (chars "a")] Type_mismatch eq_refl).
Defined.

Lemma first_incompatible_argument_fails_witness :
  forallb wf_segment [Lit "a"; Directive dir_d] = true
  /\ well_formed dir_5s = true
  /\ accepts_all false false narrow_char (directives [Lit "a"; Directive dir_d])
                 [arg_int 1] = true
  /\ checks false false narrow_char dir_5s (arg_int 2) = Err Type_mismatch
  /\ oprintf false false narrow_char echo_vsprintf [] (chars "a%d%5s%")
             [arg_int 1; arg_int 2; arg_int 3] = Err Type_mismatch.
Proof.
  split; [reflexivity|]. split; [reflexivity|]. split; [reflexivity|].
  split; [reflexivity|].
  exact (@first_incompatible_argument_fails false false narrow_char echo_vsprintf
           [Lit "a"; Directive dir_d] dir_5s (chars "%") [] [arg_int 1] [arg_int 3]
           (arg_int 2) Type_mismatch eq_refl eq_refl eq_refl eq_refl).
Defined.

Lemma success_iff_compatible_witness :
  forallb wf_segment [Lit "a"; Directive dir_d; Percent] = true
  /\ is_Ok (oprintf false false narrow_char echo_vsprintf [] (chars "a%d%%")
                    [arg_std_string (chars "x")])
     = accepts_all false false narrow_char [dir_d] [arg_std_string (chars "x")].
Proof.
  split; [reflexivity|].
  exact (@success_iff_compatible false false narrow_char echo_vsprintf
           [Lit "a"; Directive dir_d; Percent] [arg_std_string (chars "x")] []
           eq_refl).
Defined.

(** ** The two build options only reject *)

Lemma strchr_strict_sign (fc : ascii) :
  (strchr "dioxX" fc = true -> strchr "diuoxX" fc = true)
  /\ (strchr "uoxX" fc = true -> strchr "diuoxX" fc = true).
Proof.
  destruct fc as [b0 b1 b2 b3 b4 b5 b6 b7].
  destruct b0, b1, b2, b3, b4, b5, b6, b7; vm_compute; split; intros H;
    try discriminate H; reflexivity.
Qed.

Lemma legalPrintfTypeChars_lax (sign sign' : bool) (type : Z) (legal : string) :
  implb sign' sign = true ->
  legalPrintfTypeChars sign type = Ok legal ->
  exists legal',
    legalPrintfTypeChars sign' type = Ok legal'
    /\ forall fc, strchr legal fc = true -> strchr legal' fc = true.
Proof.
  intros Himp. unfold legalPrintfTypeChars.
  destruct (type =? Ty.Int)%Z;
    [|destruct (type =? Ty.Unsigned)%Z;
      [|intros H; exists legal; split; [exact H|auto]]].
  - destruct sign, sign'; try discriminate Himp; intros H; injection H as <-;
      eexists; (split; [reflexivity|]); intros fc Hfc; auto.
    apply (proj1 (strchr_strict_sign fc)), Hfc.
  - destruct sign, sign'; try discriminate Himp; intros H; injection H as <-;
      eexists; (split; [reflexivity|]); intros fc Hfc; auto.
    apply (proj2 (strchr_strict_sign fc)), Hfc.
Qed.

Lemma size_switch_lax (intsize intsize' : bool) (size : Z) (sc : ascii) :
  implb intsize' intsize = true ->
  size_switch intsize size sc = Ok tt ->
  size_switch intsize' size sc = Ok tt.
Proof.
  destruct intsize, intsize'; intros Himp; try discriminate Himp; auto.
  unfold size_switch. change (sizeof_int =? sizeof_long)%Z with true.
  cbn [assertmsg bind].
  destruct (size =? Size.None)%Z eqn:EN; cbn [orb].
  - intros H. apply assertmsg_Ok_inv in H. rewrite H. reflexivity.
  - destruct (size =? Size.Long)%Z eqn:EL; [|auto].
    intros H. apply assertmsg_Ok_inv in H. rewrite H, orb_true_r. reflexivity.
Qed.

Lemma type_check_lax (intsize intsize' : bool) (size type : Z)
      (legal legal' : string) (sc fc : ascii) :
  implb intsize' intsize = true ->
  (forall c, strchr legal c = true -> strchr legal' c = true) ->
  type_check intsize size type legal sc fc = Ok tt ->
  type_check intsize' size type legal' sc fc = Ok tt.
Proof.
  intros Himp Hlegal. unfold type_check. intros H.
  apply bind_Ok_inv in H. destruct H as ([] & H1 & H2).
  assert (H1' : (if (type =? Ty.String)%Z && (fc =? "p")%char
                 then assertmsg (sc =? NUL)%char Invalid_format_specification
                 else if (type =? Ty.Unsigned)%Z && (size =? Size.Short)%Z
                      then if (fc =? "c")%char
                           then assertmsg (sc =? "l")%char Type_mismatch
                           else assertmsg (sc =? "h")%char Type_mismatch
                      else size_switch intsize' size sc) = Ok tt).
  { destruct ((type =? Ty.String)%Z && (fc =? "p")%char); [exact H1|].
    destruct ((type =? Ty.Unsigned)%Z && (size =? Size.Short)%Z); [exact H1|].
    apply (size_switch_lax intsize intsize' size sc Himp H1). }
  rewrite H1'. cbn [bind].
  destruct ((type =? Ty.Unsigned)%Z && (size =? Size.Short)%Z);
    apply assertmsg_Ok_inv in H2.
  - apply orb_true_iff in H2. destruct H2 as [H2|H2].
    + rewrite H2. reflexivity.
    + rewrite (Hlegal fc H2), orb_true_r. reflexivity.
  - rewrite (Hlegal fc H2). reflexivity.
Qed.

Lemma Do_lax (sign intsize sign' intsize' : bool) (CharT : char_type)
      (vs : Z -> list ascii -> va_value -> list ascii)
      (sizeAndType : Z) (v : va_value) (p p' : Printf) :
  implb sign' sign = true ->
  implb intsize' intsize = true ->
  Do sign intsize CharT vs sizeAndType v p = Ok p' ->
  Do sign' intsize' CharT vs sizeAndType v p = Ok p'.
Proof.
  intros Hs Hi. unfold Do. intros H.
  apply bind_Ok_inv in H. destruct H as (legal & Hlegal & H).
  apply bind_Ok_inv in H. destruct H as (d & Hd & H).
  apply bind_Ok_inv in H. destruct H as ([] & Ht & H).
  destruct (legalPrintfTypeChars_lax sign sign' _ Hs Hlegal) as (legal' & Hlegal' & Hsub).
  rewrite Hlegal', Hd. cbn [bind].
  rewrite (type_check_lax intsize intsize' _ _ legal legal' _ _ Hi Hsub Ht).
  exact H.
Qed.

Lemma feed_lax (sign intsize sign' intsize' : bool) (CharT : char_type)
      (vs : Z -> list ascii -> va_value -> list ascii) (args : list argument) :
  implb sign' sign = true ->
  implb intsize' intsize = true ->
  forall p p' : Printf,
    feed sign intsize CharT vs p args = Ok p' ->
    feed sign' intsize' CharT vs p args = Ok p'.
Proof.
  intros Hs Hi. induction args as [|a args IH]; intros p p' H; cbn [feed] in *;
    [exact H|].
  apply bind_Ok_inv in H. destruct H as (q & Hq & H).
  unfold shl in *. rewrite (@Do_lax sign intsize sign' intsize' CharT vs _ _ _ _ Hs Hi Hq). cbn [bind].
  apply IH, H.
Qed.

(** X12. STREAMPRINTF_STRICT_SIGN and STREAMPRINTF_STRICT_INTSIZE only
    reject: a call that succeeds in a build with some of the two options
    succeeds in every build with fewer of them, and leaves the same text
    on the stream. *)
Theorem strict_options_only_reject (sign intsize sign' intsize' : bool)
        (CharT : char_type) (vs : Z -> list ascii -> va_value -> list ascii)
        (ostm fmt : list ascii) (args : list argument) (r : list ascii) :
  implb sign' sign = true ->
  implb intsize' intsize = true ->
  oprintf sign intsize CharT vs ostm fmt args = Ok r ->
  oprintf sign' intsize' CharT vs ostm fmt args = Ok r.
Proof.
  intros Hs Hi. unfold oprintf. intros H.
  apply bind_Ok_inv in H. destruct H as (p & Hp & H).
  apply bind_Ok_inv in H. destruct H as (q & Hq & H).
  rewrite Hp. cbn [bind].
  rewrite (@feed_lax sign intsize sign' intsize' CharT vs args Hs Hi _ _ Hq). cbn [bind].
  exact H.
Qed.

Lemma strict_options_only_reject_witness :
  implb false true = true
  /\ oprintf true true narrow_char echo_vsprintf [] (chars "%d is %lu")
             [arg_int 1; arg_unsigned_long 2] = Ok (chars "<%d> is <%lu>")
  /\ oprintf false false narrow_char echo_vsprintf [] (chars "%d is %lu")
             [arg_int 1; arg_unsigned_long 2] = Ok (chars "<%d> is <%lu>").
Proof.
  split; [reflexivity|]. split; [reflexivity|].
  exact (@strict_options_only_reject true true false false narrow_char echo_vsprintf
           [] (chars "%d is %lu") [arg_int 1; arg_unsigned_long 2]
           (chars "<%d> is <%lu>") eq_refl eq_refl eq_refl).
Defined.
